(** * The AOA control device of the USB gadget serial driver

    A shallow embedding of [drivers/usb/gadget/serial.c]: the gadget mode
    state machine ([switch_mode], [reset_mode]), the event list
    ([aoa_event_node_add] and its two producers, [aoa_read], [aoa_poll]) and
    the control device entry points ([aoa_open], [aoa_release],
    [aoa_ioctl]).

    The C globals are threaded explicitly as a [state].  Kernel memory
    holding the event nodes is a finite map from addresses to nodes, so the
    linked list is the one the C code builds, pointer by pointer.  What the
    environment decides (the address [kmalloc] returns, the value
    [usb_composite_probe] returns, a pending signal, a failing
    [copy_to_user]) is an argument of the function that asks for it.  A
    function that would dereference memory it does not own returns [None].

    Every entry point does its work under a lock ([mode_switch_mutex] for
    the mode, the spinlock of [aoa_waitqueue] for the list), so each is one
    step here.  The USB composite framework is outside the driver: its
    calls are recorded by name.  [gs_bind], which it calls back, is
    modelled on its own in [Bind]. *)

From Stdlib Require Import ZArith.
From Stdlib.Strings Require Import Byte.
From stdpp Require Import base option list gmap strings.

Local Open Scope Z_scope.

(** ** Constants and enumerations *)

Definition AOA_MAX_STR_SIZE : Z := 256.

Inductive aoa_string_type :=
  | AOA_STRING_MANUFACTURER
  | AOA_STRING_MODEL
  | AOA_STRING_DESCRIPTION
  | AOA_STRING_VERSION
  | AOA_STRING_URI
  | AOA_STRING_SERIAL.

Inductive aoa_event_type :=
  | AOA_EVENT_CONNECTED_ACM
  | AOA_EVENT_DISCONNECTED_ACM
  | AOA_EVENT_STRING_RECEIVED
  | AOA_EVENT_START_REQUESTED.

Inductive gadget_mode :=
  | MODE_NONE
  | MODE_ACM
  | MODE_AOA.

#[global] Instance aoa_string_type_eq_dec : EqDecision aoa_string_type.
Proof. solve_decision. Defined.
#[global] Instance aoa_event_type_eq_dec : EqDecision aoa_event_type.
Proof. solve_decision. Defined.
#[global] Instance gadget_mode_eq_dec : EqDecision gadget_mode.
Proof. solve_decision. Defined.

(** Modelled from the spec: the errno constants of the kernel headers, which
    are not among the sources.  The spec names them [InvalidArgument]
    (EINVAL), [AlreadyOpen] (EBUSY), [Cancelled] (EINTR) and
    [UnsupportedOperation] (ENOTTY); EFAULT is the failed copy to user
    space.  The values are those of asm-generic/errno-base.h. *)
Definition EINTR : Z := 4.
Definition EFAULT : Z := 14.
Definition EBUSY : Z := 16.
Definition EINVAL : Z := 22.
Definition ENOTTY : Z := 25.

(** Modelled from the spec: [size_t] of the 32-bit ARM target; sums of
    [size_t] values wrap around. *)
Definition SIZE_BITS : Z := 32.
Definition SIZE_MAX : Z := 2 ^ SIZE_BITS - 1.
Definition size_t (z : Z) : Z := z mod 2 ^ SIZE_BITS.

(** [sizeof(enum ...)] is the size of an [int]; [struct aoa_string] and
    [struct aoa_event] have no padding. *)
Definition sizeof_enum : Z := 4.
Definition sizeof_aoa_string : Z := sizeof_enum + AOA_MAX_STR_SIZE.
Definition sizeof_aoa_event : Z := sizeof_enum + sizeof_aoa_string.

(** Modelled from the spec: the ioctl request codes [_IO('g', nr)] of
    linux/ioctl.h, character code of 'g' in bits 8..15 and [nr] in bits
    0..7. *)
Definition _IO (ty nr : Z) : Z := Z.lor (Z.shiftl ty 8) nr.
Definition AOA_IOCTL_SWITCH_TO_AOA : Z := _IO 103 1.
Definition AOA_IOCTL_SWITCH_TO_ACM : Z := _IO 103 2.
Definition AOA_IOCTL_RESET : Z := _IO 103 3.

(** Modelled from the spec: the device class codes of linux/usb/ch9.h. *)
Definition USB_CLASS_COMM : Z := 2.
Definition USB_CLASS_VENDOR_SPEC : Z := 255.

Definition GS_ACM_VENDOR_ID : Z := 0x0525.
Definition GS_ACM_PRODUCT_ID : Z := 0xa4a7.
Definition GS_AOA_VENDOR_ID : Z := 0x18d1.
Definition GS_AOA_PRODUCT_ID : Z := 0x2d00.

(** Modelled from the spec: the readiness bits of asm-generic/poll.h that
    [aoa_poll] reports when an event is pending. *)
Definition POLLIN : Z := 1.
Definition POLLRDNORM : Z := 64.

(** ** Kernel memory and the list primitives *)

(** A pointer is an address; [NULL] is address 0. *)
Abbreviation ptr := Z.
Definition NULL : ptr := 0.

(** Modelled from the spec: the poison values [list_del] leaves in a removed
    entry (linux/poison.h). *)
Definition LIST_POISON1 : ptr := 0x00100100.
Definition LIST_POISON2 : ptr := 0x00200200.

Record list_head := mk_list_head {
  next : ptr;
  prev : ptr;
}.

(** [struct aoa_event_list_node].  The fields are prefixed with [node_]
    ([list] and [type] are taken).  The string buffer [str] is owned by its
    node: it is allocated for it, never shared and never written again, so
    it is kept by value; [None] is the C [NULL]. *)
Record aoa_event_list_node := mk_node {
  node_type : aoa_event_type;
  node_str_type : aoa_string_type;
  node_str : option (list byte);
  node_list : list_head;
}.

Abbreviation memory := (gmap Z aoa_event_list_node).

Definition set_node_type (t : aoa_event_type) (n : aoa_event_list_node) :=
  mk_node t (node_str_type n) (node_str n) (node_list n).
Definition set_node_str_type (t : aoa_string_type) (n : aoa_event_list_node) :=
  mk_node (node_type n) t (node_str n) (node_list n).
Definition set_node_str (s : option (list byte)) (n : aoa_event_list_node) :=
  mk_node (node_type n) (node_str_type n) s (node_list n).
Definition set_next (p : ptr) (n : aoa_event_list_node) :=
  mk_node (node_type n) (node_str_type n) (node_str n)
          (mk_list_head p (prev (node_list n))).
Definition set_prev (p : ptr) (n : aoa_event_list_node) :=
  mk_node (node_type n) (node_str_type n) (node_str n)
          (mk_list_head (next (node_list n)) p).

(** A write through pointer [p]: faults when [p] is not allocated. *)
Definition store (p : ptr) (f : aoa_event_list_node → aoa_event_list_node)
    (m : memory) : option memory :=
  n ← m !! p; Some (<[p := f n]> m).

(** Modelled from the spec: [kfree] releases an allocated node; freeing
    [NULL] does nothing, freeing anything else faults. *)
Definition kfree (p : ptr) (m : memory) : option memory :=
  if decide (p = NULL) then Some m
  else _ ← m !! p; Some (delete p m).

(** Modelled from the spec: the circular doubly linked list of linux/list.h.
    A [struct list_head] embedded in a node is identified with the node, so
    [list_entry] is the identity. *)
Definition INIT_LIST_HEAD (l : ptr) (m : memory) : option memory :=
  m1 ← store l (set_next l) m;
  store l (set_prev l) m1.

Definition __list_add (new pv nx : ptr) (m : memory) : option memory :=
  m1 ← store nx (set_prev new) m;
  m2 ← store new (set_next nx) m1;
  m3 ← store new (set_prev pv) m2;
  store pv (set_next new) m3.

Definition list_add (new head : ptr) (m : memory) : option memory :=
  h ← m !! head;
  __list_add new head (next (node_list h)) m.

Definition __list_del (pv nx : ptr) (m : memory) : option memory :=
  m1 ← store nx (set_prev pv) m;
  store pv (set_next nx) m1.

Definition list_del (entry : ptr) (m : memory) : option memory :=
  e ← m !! entry;
  m1 ← __list_del (prev (node_list e)) (next (node_list e)) m;
  m2 ← store entry (set_next LIST_POISON1) m1;
  store entry (set_prev LIST_POISON2) m2.

(** The body and the stepping of
    [list_for_each_entry_safe(node, temp, head, list)] in
    [aoa_event_node_add]: every entry but [head] itself is unlinked and
    freed.  Each round frees one node, so [fuel] = number of allocated nodes
    is always enough. *)
Fixpoint free_entries (fuel : nat) (head node temp : ptr) (m : memory)
    : option memory :=
  if decide (node = head) then Some m
  else
    match fuel with
    | O => None
    | S fuel' =>
        m1 ← list_del node m;
        (* kfree(node->str): the buffer goes with its node *)
        m2 ← kfree node m1;
        t ← m2 !! temp;
        free_entries fuel' head temp (next (node_list t)) m2
    end.

Definition list_for_each_entry_safe_free (head : ptr) (m : memory)
    : option memory :=
  h ← m !! head;
  let node := next (node_list h) in
  n ← m !! node;
  free_entries (size m) head node (next (node_list n)) m.

(** ** The event list *)

Record event_queue := mk_queue {
  mem : gmap Z aoa_event_list_node;
  first_aoa_event_node : ptr;
  last_aoa_event_node : ptr;
  next_aoa_event_node : ptr;
}.

Definition empty_queue : event_queue := mk_queue ∅ NULL NULL NULL.

(** [new_node] is what [kmalloc] returned ([NULL] on failure) and [junk] the
    uninitialised contents of the fresh node. *)
Definition aoa_event_node_add (new_node : ptr) (junk : aoa_event_list_node)
    (type : aoa_event_type) (str_type : option aoa_string_type)
    (str : option (list byte)) (q : event_queue)
    : option (bool * event_queue) :=
  if decide (new_node = NULL) then Some (false, q)
  else
    let m0 := <[new_node := junk]> (mem q) in
    m1 ← store new_node (set_node_type type) m0;
    m2 ← match str_type with
         | Some st => store new_node (set_node_str_type st) m1
         | None => Some m1
         end;
    m3 ← store new_node (set_node_str str) m2;
    '(m4, first, nxt) ←
      (if decide (first_aoa_event_node q ≠ NULL ∧ type = AOA_EVENT_CONNECTED_ACM)
       then
         m' ← list_for_each_entry_safe_free (first_aoa_event_node q) m3;
         Some (m', NULL, NULL)
       else Some (m3, first_aoa_event_node q, next_aoa_event_node q));
    m5 ← INIT_LIST_HEAD new_node m4;
    '(m6, first', nxt') ←
      (if decide (first = NULL) then Some (m5, new_node, new_node)
       else
         m' ← list_add new_node (last_aoa_event_node q) m5;
         Some (m', first, nxt));
    let nxt'' := if decide (nxt' = NULL) then new_node else nxt' in
    Some (true, mk_queue m6 first' new_node nxt'').

Definition aoa_event_add (new_node : ptr) (junk : aoa_event_list_node)
    (type : aoa_event_type) (q : event_queue) : option event_queue :=
  r ← aoa_event_node_add new_node junk type None None q;
  Some r.2.

(** Modelled from the spec: [strlen] counts the bytes before the first NUL;
    it runs off a buffer that holds none. *)
Fixpoint strlen (s : list byte) : option nat :=
  match s with
  | [] => None
  | b :: r => if Byte.eqb b x00 then Some O else S <$> strlen r
  end.

(** Modelled from the spec: [memcpy] of [n] bytes out of a buffer; it faults
    when the buffer is shorter. *)
Definition memcpy_from (src : list byte) (n : Z) : option (list byte) :=
  if decide (0 ≤ n ≤ Z.of_nat (length src)) then Some (take (Z.to_nat n) src)
  else None.

(** [str_ok] tells whether the [kmalloc] of the string buffer succeeded;
    [strbuf] is the caller's buffer. *)
Definition aoa_str_received_event_add (str_ok : bool) (new_node : ptr)
    (junk : aoa_event_list_node) (type : aoa_string_type)
    (strbuf : list byte) (len : Z) (q : event_queue) : option event_queue :=
  let str_mem_len := Z.min (size_t (len + 1)) AOA_MAX_STR_SIZE in
  if negb str_ok then Some q
  else
    payload ← memcpy_from strbuf (size_t (str_mem_len - 1));
    (* the buffer has str_mem_len bytes: str[str_mem_len - 1] = 0 *)
    if decide (str_mem_len = 0) then None
    else
      let str := payload ++ [x00] in
      r ← aoa_event_node_add new_node junk AOA_EVENT_STRING_RECEIVED
            (Some type) (Some str) q;
      (* on failure kfree(str): the queue is as it was *)
      Some r.2.

(** What [copy_to_user] hands to the reader: the event type alone, or a
    [struct aoa_event] cut after the string's terminator; and, when the
    copy stops at a fault, the first [n] bytes of such a record. *)
Inductive user_data :=
  | TypeOnly (t : aoa_event_type)
  | WithString (t : aoa_event_type) (st : aoa_string_type) (s : list byte)
  | Partial (n : Z) (d : user_data).

Inductive read_result :=
  | Returned (ret : Z) (out : option user_data) (q : event_queue)
  | Sleeping.

(** [buf] is the user pointer, [signal] tells whether a signal is pending
    when the reader would have to wait, and [not_copied] is what
    [copy_to_user] returns: the number of bytes it could not copy, the
    bytes before them having reached the buffer.  [Sleeping] is the reader
    waiting on [aoa_waitqueue] for the next [wake_up_locked]. *)
Definition aoa_read (signal : bool) (not_copied : Z) (buf : ptr) (len : Z)
    (q : event_queue) : option read_result :=
  if decide (buf = NULL ∨ len ≠ sizeof_aoa_event)
  then Some (Returned (- EINVAL) None q)
  else if decide (next_aoa_event_node q = NULL)
  then Some (if signal then Returned (- EINTR) None q else Sleeping)
  else
    n ← mem q !! next_aoa_event_node q;
    out ← match node_str n with
          | None => Some (sizeof_enum, TypeOnly (node_type n))
          | Some s =>
              l ← strlen s;
              let str_mem_len := Z.of_nat l + 1 in
              if decide (str_mem_len ≤ AOA_MAX_STR_SIZE) then
                copied ← memcpy_from s str_mem_len;
                Some (sizeof_enum + sizeof_enum + str_mem_len,
                      WithString (node_type n) (node_str_type n) copied)
              else None
          end;
    if decide (not_copied ≠ 0)
    then Some (Returned (- EFAULT)
                 (Some (Partial (out.1 - not_copied) out.2)) q)
    else
      let nxt :=
        if decide (last_aoa_event_node q = next_aoa_event_node q) then NULL
        else next (node_list n) in
      Some (Returned out.1 (Some out.2)
              (mk_queue (mem q) (first_aoa_event_node q)
                        (last_aoa_event_node q) nxt)).

Definition aoa_poll (q : event_queue) : Z :=
  if decide (next_aoa_event_node q = NULL) then 0
  else Z.lor POLLIN POLLRDNORM.

(** ** The gadget mode *)

(** The two bind callbacks handed to [usb_composite_probe]. *)
Inductive bind_fn := gs_bind_acm | gs_bind_aoa.

(** The calls into the USB composite framework, which is outside the
    driver: they are recorded in the order they are made. *)
Inductive transport_call :=
  | usb_composite_unregister
  | gserial_cleanup
  | usb_composite_probe (bind : bind_fn).

Record usb_configuration := mk_config {
  label : option string;
  bConfigurationValue : Z;
}.

Record usb_device_descriptor := mk_desc {
  bDeviceClass : Z;
  idVendor : Z;
  idProduct : Z;
}.

(** [current_mode] with the descriptor fields [switch_mode] fills in and the
    calls made so far. *)
Record mode_ctl := mk_mode_ctl {
  current_mode : gadget_mode;
  serial_config_driver : usb_configuration;
  device_desc : usb_device_descriptor;
  strings_dev_description : option string;
  transport : list transport_call;
}.

Definition initial_mode_ctl : mode_ctl :=
  mk_mode_ctl MODE_NONE (mk_config None 0) (mk_desc 0 0 0) None [].

Definition call (c : transport_call) (s : mode_ctl) : mode_ctl :=
  mk_mode_ctl (current_mode s) (serial_config_driver s) (device_desc s)
              (strings_dev_description s) (transport s ++ [c]).

Definition set_current_mode (m : gadget_mode) (s : mode_ctl) : mode_ctl :=
  mk_mode_ctl m (serial_config_driver s) (device_desc s)
              (strings_dev_description s) (transport s).

Definition set_descriptors (lbl : string) (cfg cls vendor product : Z)
    (s : mode_ctl) : mode_ctl :=
  mk_mode_ctl (current_mode s) (mk_config (Some lbl) cfg)
              (mk_desc cls vendor product) (Some lbl) (transport s).

(** [probe_ret] is what [usb_composite_probe] returns if it is called. *)
Definition switch_mode (probe_ret : Z) (new_mode : gadget_mode) (s : mode_ctl)
    : Z * mode_ctl :=
  if decide (current_mode s = new_mode) then (0, s)
  else
    let s1 :=
      if decide (current_mode s ≠ MODE_NONE)
      then call gserial_cleanup (call usb_composite_unregister s)
      else s in
    match new_mode with
    | MODE_NONE => (0, set_current_mode MODE_NONE s1)
    | MODE_ACM =>
        let s2 := set_descriptors "CDC ACM config" 2 USB_CLASS_COMM
                    GS_ACM_VENDOR_ID GS_ACM_PRODUCT_ID s1 in
        let s3 := call (usb_composite_probe gs_bind_acm) s2 in
        if decide (probe_ret ≠ 0) then (probe_ret, s3)
        else (probe_ret, set_current_mode new_mode s3)
    | MODE_AOA =>
        let s2 := set_descriptors "Android Open Accessory config" 1
                    USB_CLASS_VENDOR_SPEC GS_AOA_VENDOR_ID GS_AOA_PRODUCT_ID
                    s1 in
        let s3 := call (usb_composite_probe gs_bind_aoa) s2 in
        if decide (probe_ret ≠ 0) then (probe_ret, s3)
        else (probe_ret, set_current_mode new_mode s3)
    end.

Definition reset_mode (probe_ret : Z) (s : mode_ctl) : Z * mode_ctl :=
  if decide (current_mode s = MODE_NONE) then (0, s)
  else
    let s1 := call gserial_cleanup (call usb_composite_unregister s) in
    let bind :=
      if decide (current_mode s = MODE_ACM) then gs_bind_acm
      else gs_bind_aoa in
    (probe_ret, call (usb_composite_probe bind) s1).

(** ** The driver state and the control device *)

Record state := mk_state {
  aoa_connected_acm : bool;
  aoa_ctrl_open : bool;
  modes : mode_ctl;
  queue : event_queue;
}.

Definition initial_state : state :=
  mk_state false false initial_mode_ctl empty_queue.

(** Modelled from the spec: [atomic_xchg] stores the new value and returns
    the old one. *)
Definition atomic_xchg (old new : bool) : bool * bool := (old, new).

Definition aoa_set_connected_acm (new_node : ptr) (junk : aoa_event_list_node)
    (new_connected_acm : bool) (st : state) : option state :=
  let '(old, flag) := atomic_xchg (aoa_connected_acm st) new_connected_acm in
  let st1 := mk_state flag (aoa_ctrl_open st) (modes st) (queue st) in
  if decide (old ≠ new_connected_acm) then
    q ← aoa_event_add new_node junk
          (if new_connected_acm then AOA_EVENT_CONNECTED_ACM
           else AOA_EVENT_DISCONNECTED_ACM) (queue st1);
    Some (mk_state flag (aoa_ctrl_open st) (modes st) q)
  else Some st1.

(** The cursor put back on the first node, as [aoa_open] does. *)
Definition rewind (q : event_queue) : event_queue :=
  mk_queue (mem q) (first_aoa_event_node q) (last_aoa_event_node q)
           (first_aoa_event_node q).

Definition aoa_open (probe_ret : Z) (st : state) : Z * state :=
  let '(old, flag) := atomic_xchg (aoa_ctrl_open st) true in
  let st1 := mk_state (aoa_connected_acm st) flag (modes st) (queue st) in
  if old then (- EBUSY, st1)
  else
    let '(ret, m) := switch_mode probe_ret MODE_ACM (modes st1) in
    if decide (ret = 0) then
      (ret, mk_state (aoa_connected_acm st) flag m (rewind (queue st1)))
    else (ret, mk_state (aoa_connected_acm st) false m (queue st1)).

Definition aoa_release (st : state) : Z * state :=
  let '(_, m) := switch_mode 0 MODE_NONE (modes st) in
  (0, mk_state (aoa_connected_acm st) false m (queue st)).

Definition aoa_ioctl (probe_ret : Z) (code : Z) (st : state) : Z * state :=
  let with_modes (r : Z * mode_ctl) :=
    (r.1, mk_state (aoa_connected_acm st) (aoa_ctrl_open st) r.2 (queue st)) in
  if decide (code = AOA_IOCTL_SWITCH_TO_AOA)
  then with_modes (switch_mode probe_ret MODE_AOA (modes st))
  else if decide (code = AOA_IOCTL_SWITCH_TO_ACM)
  then with_modes (switch_mode probe_ret MODE_ACM (modes st))
  else if decide (code = AOA_IOCTL_RESET)
  then with_modes (reset_mode probe_ret (modes st))
  else (- ENOTTY, st).

(** ** The list the nodes form *)

(** What a node carries besides its links. *)
Record payload := mk_payload {
  p_type : aoa_event_type;
  p_str_type : aoa_string_type;
  p_str : option (list byte);
}.

Definition node_of (e : payload) (nx pv : ptr) : aoa_event_list_node :=
  mk_node (p_type e) (p_str_type e) (p_str e) (mk_list_head nx pv).

Definition payload_of (n : aoa_event_list_node) : payload :=
  mk_payload (node_type n) (node_str_type n) (node_str n).

Definition hd_ptr (d : ptr) (es : list (Z * payload)) : ptr :=
  match es with
  | [] => d
  | e :: _ => e.1
  end.

Fixpoint last_ptr (d : ptr) (es : list (Z * payload)) : ptr :=
  match es with
  | [] => d
  | e :: r => last_ptr e.1 r
  end.

(** [dseg m pv es nx]: the entries [es] are linked one to the next in [m];
    the first points back to [pv], the last forward to [nx]. *)
Fixpoint dseg (m : memory) (pv : ptr) (es : list (Z * payload)) (nx : ptr)
    : Prop :=
  match es with
  | [] => True
  | e :: r =>
      m !! e.1 = Some (node_of e.2 (hd_ptr nx r) pv) ∧ dseg m e.1 r nx
  end.

(** The circular list through all of [es]. *)
Definition ring (m : memory) (es : list (Z * payload)) : Prop :=
  dseg m (last_ptr NULL es) es (hd_ptr NULL es).

(** A stored string [aoa_read] can serialise: terminated, and no longer
    than [struct aoa_string] has room for. *)
Definition readable (s : option (list byte)) : Prop :=
  match s with
  | None => True
  | Some s => ∃ l, strlen s = Some l ∧ Z.of_nat l + 1 ≤ AOA_MAX_STR_SIZE
  end.

(** [queue_inv q es unread]: the nodes of [q] hold the log [es], oldest
    first, and the cursor stands before [unread], a suffix of the log. *)
Record queue_inv (q : event_queue) (es unread : list (Z * payload)) : Prop := {
  inv_nodup : NoDup es.*1;
  inv_nonnull : NULL ∉ es.*1;
  inv_ring : ring (mem q) es;
  inv_first : first_aoa_event_node q = hd_ptr NULL es;
  inv_last : es ≠ [] → last_aoa_event_node q = last_ptr NULL es;
  inv_next : next_aoa_event_node q = hd_ptr NULL unread;
  inv_unread : unread `suffix_of` es;
  inv_readable : Forall (λ e, readable (p_str e.2)) es;
}.

(** What a read hands out for a log entry, and the value it returns. *)
Definition c_string (s : list byte) : list byte :=
  match strlen s with
  | Some l => take (S l) s
  | None => s
  end.

Definition view (e : payload) : user_data :=
  match p_str e with
  | None => TypeOnly (p_type e)
  | Some s => WithString (p_type e) (p_str_type e) (c_string s)
  end.

Definition view_size (e : payload) : Z :=
  match p_str e with
  | None => sizeof_enum
  | Some s => sizeof_enum + sizeof_enum + Z.of_nat (length (c_string s))
  end.

(** [n] reads in a row, each of which must hand out an event. *)
Fixpoint read_n (n : nat) (buf : ptr) (q : event_queue)
    : option (list user_data * event_queue) :=
  match n with
  | O => Some ([], q)
  | S n' =>
      r ← aoa_read false 0 buf sizeof_aoa_event q;
      match r with
      | Returned ret (Some d) q' =>
          rest ← read_n n' buf q';
          Some (d :: rest.1, rest.2)
      | _ => None
      end
  end.

(** A producer call together with what the allocator answered. *)
Inductive push :=
  | PushEvent (new_node : Z) (junk : aoa_event_list_node)
              (type : aoa_event_type)
  | PushString (new_node : Z) (junk : aoa_event_list_node)
               (type : aoa_string_type) (strbuf : list byte) (len : Z).

Definition push_addr (p : push) : Z :=
  match p with
  | PushEvent a _ _ => a
  | PushString a _ _ _ _ => a
  end.

Definition do_push (p : push) (q : event_queue) : option event_queue :=
  match p with
  | PushEvent a j t => aoa_event_add a j t q
  | PushString a j t b l => aoa_str_received_event_add true a j t b l q
  end.

Fixpoint do_pushes (ps : list push) (q : event_queue) : option event_queue :=
  match ps with
  | [] => Some q
  | p :: r => q' ← do_push p q; do_pushes r q'
  end.

(** The string [aoa_str_received_event_add] stores for a buffer of [len]
    bytes. *)
Definition stored_str (strbuf : list byte) (len : Z) : list byte :=
  take (Z.to_nat (Z.min (len + 1) AOA_MAX_STR_SIZE - 1)) strbuf ++ [x00].

(** The record a producer call puts in the log. *)
Definition pushed (p : push) : payload :=
  match p with
  | PushEvent _ j t => mk_payload t (node_str_type j) None
  | PushString _ _ t b l =>
      mk_payload AOA_EVENT_STRING_RECEIVED t (Some (stored_str b l))
  end.

Definition entry_of (p : push) : Z * payload := (push_addr p, pushed p).

Definition is_connected (p : push) : Prop :=
  match p with
  | PushEvent _ _ t => t = AOA_EVENT_CONNECTED_ACM
  | PushString _ _ _ _ _ => False
  end.

(** A buffer of at least [len] bytes, [len] being a length [size_t] holds with
    room for the terminator. *)
Definition well_sized (p : push) : Prop :=
  match p with
  | PushEvent _ _ _ => True
  | PushString _ _ _ b l => 0 ≤ l ≤ Z.of_nat (length b) ∧ l < SIZE_MAX
  end.

(** ** The driver as a transition system *)

(** An entry into the driver, with what the environment answers to it. *)
Inductive request :=
  | SetConnected (new_node : Z) (junk : aoa_event_list_node) (b : bool)
  | EventAdd (new_node : Z) (junk : aoa_event_list_node)
             (type : aoa_event_type)
  | StrReceived (str_ok : bool) (new_node : Z) (junk : aoa_event_list_node)
                (type : aoa_string_type) (strbuf : list byte) (len : Z)
  | Open (probe_ret : Z)
  | Release
  | Ioctl (probe_ret code : Z)
  | Read (signal : bool) (not_copied : Z) (buf len : Z).

Definition with_queue (st : state) (q : event_queue) : state :=
  mk_state (aoa_connected_acm st) (aoa_ctrl_open st) (modes st) q.

Definition step (r : request) (st : state) : option state :=
  match r with
  | SetConnected a j b => aoa_set_connected_acm a j b st
  | EventAdd a j t => with_queue st <$> aoa_event_add a j t (queue st)
  | StrReceived ok a j t b l =>
      with_queue st <$> aoa_str_received_event_add ok a j t b l (queue st)
  | Open p => Some (aoa_open p st).2
  | Release => Some (aoa_release st).2
  | Ioctl p c => Some (aoa_ioctl p c st).2
  | Read sg nc buf len =>
      res ← aoa_read sg nc buf len (queue st);
      match res with
      | Returned _ _ q' => Some (with_queue st q')
      | Sleeping => Some st
      end
  end.

(** What the environment may answer: [kmalloc] fails or returns memory that
    is not in use, and a string comes in a buffer that holds it. *)
Definition fresh_or_null (a : Z) (st : state) : Prop :=
  a = NULL ∨ mem (queue st) !! a = None.

Definition allowed (r : request) (st : state) : Prop :=
  match r with
  | SetConnected a _ _ => fresh_or_null a st
  | EventAdd a _ _ => fresh_or_null a st
  | StrReceived _ a _ _ b l =>
      fresh_or_null a st ∧ 0 ≤ l ≤ Z.of_nat (length b) ∧ l < SIZE_MAX
  | _ => True
  end.

Inductive reachable : state → Prop :=
  | reachable_init : reachable initial_state
  | reachable_step st r st' :
      reachable st → allowed r st → step r st = Some st' → reachable st'.

(** ** A small run used as a concrete input *)

Definition junk0 : aoa_event_list_node :=
  mk_node AOA_EVENT_CONNECTED_ACM AOA_STRING_MANUFACTURER None
          (mk_list_head LIST_POISON1 LIST_POISON2).

(** "Pixel" *)
Definition pixel : list byte := [x50; x69; x78; x65; x6c].

Definition demo_pushes : list push :=
  [PushString 16 junk0 AOA_STRING_MODEL pixel 5;
   PushEvent 32 junk0 AOA_EVENT_DISCONNECTED_ACM].

Definition demo_log : list (Z * payload) := entry_of <$> demo_pushes.

Definition demo_queue : event_queue :=
  default empty_queue (do_pushes demo_pushes empty_queue).

Definition more_pushes : list push :=
  [PushEvent 48 junk0 AOA_EVENT_START_REQUESTED;
   PushString 64 junk0 AOA_STRING_SERIAL [x41; x00; x42] 3].

(** The AOA personality, entered from the initial state. *)
Definition aoa_mode_ctl : mode_ctl :=
  (switch_mode 0 MODE_AOA initial_mode_ctl).2.

(** [demo_queue] after both entries have been read. *)
Definition demo_queue_read : event_queue :=
  match read_n 2 1 demo_queue with
  | Some r => r.2
  | None => demo_queue
  end.

Definition demo_state : state :=
  mk_state false false initial_mode_ctl demo_queue_read.

(** 300 bytes, none of them NUL. *)
Definition long_buf : list byte := replicate 300 x41.

(** The run of the spec's example: a string, then a connection, then a
    start request, all before the device is opened. *)
Definition example_pushes : list push :=
  [PushString 16 junk0 AOA_STRING_MODEL pixel 5;
   PushEvent 32 junk0 AOA_EVENT_CONNECTED_ACM;
   PushEvent 48 junk0 AOA_EVENT_START_REQUESTED].

(** ** Runs of the mode controller *)

(** A request to the mode controller with the answer of
    [usb_composite_probe], should it be called. *)
Inductive mode_op :=
  | SwitchTo (target : gadget_mode) (probe_ret : Z)
  | ResetMode (probe_ret : Z).

Definition do_mode_op (o : mode_op) (s : mode_ctl) : Z * mode_ctl :=
  match o with
  | SwitchTo t r => switch_mode r t s
  | ResetMode r => reset_mode r s
  end.

Definition do_mode_ops (os : list mode_op) (s : mode_ctl) : mode_ctl :=
  foldl (λ s o, (do_mode_op o s).2) s os.

(** No switch of the run meets a failing probe. *)
Definition switch_registers (o : mode_op) : Prop :=
  match o with
  | SwitchTo t r => t = MODE_NONE ∨ r = 0
  | ResetMode _ => True
  end.

(** The descriptor fields are those [switch_mode] installs for the current
    mode. *)
Definition descriptors_match (s : mode_ctl) : Prop :=
  match current_mode s with
  | MODE_NONE => True
  | MODE_ACM =>
      serial_config_driver s = mk_config (Some "CDC ACM config") 2 ∧
      device_desc s
      = mk_desc USB_CLASS_COMM GS_ACM_VENDOR_ID GS_ACM_PRODUCT_ID ∧
      strings_dev_description s = Some "CDC ACM config"
  | MODE_AOA =>
      serial_config_driver s
      = mk_config (Some "Android Open Accessory config") 1 ∧
      device_desc s
      = mk_desc USB_CLASS_VENDOR_SPEC GS_AOA_VENDOR_ID GS_AOA_PRODUCT_ID ∧
      strings_dev_description s = Some "Android Open Accessory config"
  end.

(** ** Runs of the control device *)

(** The file operations other than [open] need the open file: the kernel
    calls them only between a successful [aoa_open] and the [aoa_release]
    that ends the session. *)
Definition needs_open (r : request) : bool :=
  match r with
  | Release | Ioctl _ _ | Read _ _ _ _ => true
  | _ => false
  end.

Inductive session_reachable : state → Prop :=
  | session_init : session_reachable initial_state
  | session_step st r st' :
      session_reachable st →
      (needs_open r = true → aoa_ctrl_open st = true) →
      step r st = Some st' →
      session_reachable st'.


(** The bytes of a buffer before its first NUL. *)
Fixpoint before_nul (s : list byte) : list byte :=
  match s with
  | [] => []
  | b :: r => if Byte.eqb b x00 then [] else b :: before_nul r
  end.

(** ** Runs of the producers with compaction *)

Definition is_connectedb (p : push) : bool :=
  match p with
  | PushEvent _ _ AOA_EVENT_CONNECTED_ACM => true
  | _ => false
  end.

(** The log after one more push: a connection starts it afresh. *)
Definition survive (l : list (Z * payload)) (p : push) : list (Z * payload) :=
  if is_connectedb p then [entry_of p] else l ++ [entry_of p].

Definition log_after (l : list (Z * payload)) (ps : list push)
    : list (Z * payload) :=
  foldl survive l ps.

(** Each push of the run gets a node that is not in use at that moment,
    and each string comes in a buffer that holds it. *)
Fixpoint pushes_granted (ps : list push) (q : event_queue) : Prop :=
  match ps with
  | [] => True
  | p :: r =>
      push_addr p ≠ NULL ∧ mem q !! push_addr p = None ∧ well_sized p ∧
      ∀ q', do_push p q = Some q' → pushes_granted r q'
  end.

(** ** The bind callback *)

Module Bind.

(** The function [usb_add_config] is given to bind the configuration. *)
Inductive config_bind := acm_bind_config | gser_bind_config.

(** The calls [gs_bind] makes into the serial and composite layers. *)
Inductive call :=
  | gserial_setup (count : Z)
  | gserial_setup_ex (count : Z) (name : string)
  | usb_string_id
  | usb_add_config (bind : config_bind)
  | gserial_cleanup.

(** What the environment answers to one run of [gs_bind]: the status of the
    serial setup, the three string ids, the controller number, whether the
    gadget is OTG, the status of [usb_add_config], and the names that go
    into the manufacturer string. *)
Record answers := mk_answers {
  setup_status : Z;
  string_id1 : Z;
  string_id2 : Z;
  string_id3 : Z;
  controller_number : Z;
  is_otg : bool;
  add_config_status : Z;
  sysname : string;
  release : string;
  gadget_name : string;
}.

(** The variables [gs_bind] writes: [manufacturer], the ids in
    [strings_dev], the indices and [bcdDevice] of [device_desc], and
    [iConfiguration], [descriptors] and [bmAttributes] of
    [serial_config_driver]; with the calls made so far. *)
Record data := mk_data {
  manufacturer : string;
  strings_dev_manufacturer_id : Z;
  strings_dev_product_id : Z;
  strings_dev_description_id : Z;
  iManufacturer : Z;
  iProduct : Z;
  iConfiguration : Z;
  bcdDevice : Z;
  descriptors_otg : bool;
  bmAttributes : Z;
  calls : list call;
}.

Definition GS_VERSION_NUM : Z := 0x2400.

(** Modelled from the spec: the configuration attribute bits of
    linux/usb/ch9.h. *)
Definition USB_CONFIG_ATT_SELFPOWER : Z := Z.shiftl 1 6.
Definition USB_CONFIG_ATT_WAKEUP : Z := Z.shiftl 1 5.

(** Stores into [__u8] and [__le16] fields keep the low bits. *)
Definition u8 (z : Z) : Z := z mod 2 ^ 8.
Definition le16 (z : Z) : Z := z mod 2 ^ 16.

(** Modelled from the spec: [snprintf] into [char manufacturer[50]] keeps
    at most 49 characters. *)
Definition snprintf_manufacturer (env : answers) : string :=
  String.substring 0 49
    (sysname env +:+ " " +:+ release env +:+ " with " +:+ gadget_name env).

Definition did (c : call) (d : data) : data :=
  mk_data (manufacturer d) (strings_dev_manufacturer_id d)
          (strings_dev_product_id d) (strings_dev_description_id d)
          (iManufacturer d) (iProduct d) (iConfiguration d) (bcdDevice d)
          (descriptors_otg d) (bmAttributes d) (calls d ++ [c]).

(** The exit through the label [fail]. *)
Definition fail (status : Z) (d : data) : Z * data :=
  (status, did gserial_cleanup d).

Definition gs_bind (env : answers) (in_aoa_mode : bool) (d : data)
    : Z * data :=
  let d := if in_aoa_mode then did (gserial_setup_ex 1 "ttyAOA") d
           else did (gserial_setup 1) d in
  let status := setup_status env in
  if decide (status < 0) then (status, d)
  else
    let d := mk_data (snprintf_manufacturer env)
               (strings_dev_manufacturer_id d) (strings_dev_product_id d)
               (strings_dev_description_id d) (iManufacturer d) (iProduct d)
               (iConfiguration d) (bcdDevice d) (descriptors_otg d)
               (bmAttributes d) (calls d) in
    let d := did usb_string_id d in
    let status := string_id1 env in
    if decide (status < 0) then fail status d
    else
      let d := mk_data (manufacturer d) (u8 status)
                 (strings_dev_product_id d) (strings_dev_description_id d)
                 (u8 status) (iProduct d) (iConfiguration d) (bcdDevice d)
                 (descriptors_otg d) (bmAttributes d) (calls d) in
      let d := did usb_string_id d in
      let status := string_id2 env in
      if decide (status < 0) then fail status d
      else
        let d := mk_data (manufacturer d) (strings_dev_manufacturer_id d)
                   (u8 status) (strings_dev_description_id d)
                   (iManufacturer d) (u8 status) (iConfiguration d)
                   (bcdDevice d) (descriptors_otg d) (bmAttributes d)
                   (calls d) in
        let d := did usb_string_id d in
        let status := string_id3 env in
        if decide (status < 0) then fail status d
        else
          let gcnum := controller_number env in
          let bcd := if decide (0 ≤ gcnum)
                     then le16 (Z.lor GS_VERSION_NUM gcnum)
                     else le16 (Z.lor GS_VERSION_NUM 0x0099) in
          let otg := is_otg env in
          let d := mk_data (manufacturer d) (strings_dev_manufacturer_id d)
                     (strings_dev_product_id d) (u8 status)
                     (iManufacturer d) (iProduct d) (u8 status) bcd
                     (if otg then true else descriptors_otg d)
                     (if otg
                      then u8 (Z.lor (bmAttributes d) USB_CONFIG_ATT_WAKEUP)
                      else bmAttributes d)
                     (calls d) in
          let d := did (usb_add_config
                          (if in_aoa_mode then gser_bind_config
                           else acm_bind_config)) d in
          let status := add_config_status env in
          if decide (status < 0) then fail status d
          else (0, d).

Definition gs_bind_acm (env : answers) (d : data) := gs_bind env false d.
Definition gs_bind_aoa (env : answers) (d : data) := gs_bind env true d.

(** The status [gs_bind] ends with, given the statuses of its steps in
    order: the first negative one, or 0. *)
Fixpoint first_negative (l : list Z) : Z :=
  match l with
  | [] => 0
  | z :: r => if decide (z < 0) then z else first_negative r
  end.

(** The variables as the driver is loaded: [bmAttributes] is
    [USB_CONFIG_ATT_SELFPOWER], the rest is zero. *)
Definition initial_data : data :=
  mk_data "" 0 0 0 0 0 0 0 false USB_CONFIG_ATT_SELFPOWER [].

End Bind.

(** ** More concrete inputs *)

Definition demo_mode_ops : list mode_op :=
  [SwitchTo MODE_ACM 0; ResetMode (-5); SwitchTo MODE_AOA 0;
   SwitchTo MODE_NONE (-1); SwitchTo MODE_ACM 0].

(** A device that looks like ACM and is closed, as a failed open leaves it
    untouched. *)
Definition acm_closed_state : state :=
  mk_state false false (switch_mode 0 MODE_ACM initial_mode_ctl).2 demo_queue.

(** The state after one session: opened, then released. *)
Definition after_session : state :=
  (aoa_release (aoa_open 0 initial_state).2).2.


(** A string with a NUL in the middle. *)
Definition split_buf : list byte := [x41; x42; x00; x43].

Definition bind_answers : Bind.answers :=
  Bind.mk_answers 0 1 2 3 0x12 true 0 "Linux" "2.6.35.3" "fsl-usb2-udc".

(** The same with a controller that is not recognised and no room for the
    configuration. *)
Definition bind_answers_failing : Bind.answers :=
  Bind.mk_answers 0 1 2 3 (-19) false (-12) "Linux" "2.6.35.3" "fsl-usb2-udc".

(** * Proofs *)

(** ** Memory *)

Section memory_lemmas.
Implicit Types (m : gmap Z aoa_event_list_node) (p : Z).

Lemma store_Some m p n f :
  m !! p = Some n → store p f m = Some (<[p := f n]> m).
Proof. intros H. unfold store. by rewrite H. Qed.

Lemma store_lookup_ne m m' p p' f :
  store p f m = Some m' → p' ≠ p → m' !! p' = m !! p'.
Proof.
  unfold store. destruct (m !! p) eqn:E; simpl; [|done].
  intros [= <-] Hne. by rewrite lookup_insert_ne.
Qed.

Lemma node_of_payload n :
  n = node_of (payload_of n) (next (node_list n)) (prev (node_list n)).
Proof. by destruct n as [? ? ? []]. Qed.

Lemma hd_ptr_app d (a b : list (Z * payload)) :
  hd_ptr d (a ++ b) = hd_ptr (hd_ptr d b) a.
Proof. by destruct a. Qed.

Lemma last_ptr_app d (a b : list (Z * payload)) :
  last_ptr d (a ++ b) = last_ptr (last_ptr d a) b.
Proof. revert d. induction a as [|x a IH]; intros d; simpl; [done|apply IH]. Qed.

Lemma last_ptr_elem d (es : list (Z * payload)) :
  es ≠ [] → last_ptr d es ∈ es.*1.
Proof.
  revert d. induction es as [|x es IH]; intros d Hne; [done|].
  destruct es as [|y es]; simpl.
  - set_solver.
  - apply elem_of_cons. right. by apply (IH x.1).
Qed.

Lemma dseg_frame_insert m p n pv es nx :
  p ∉ es.*1 → dseg m pv es nx → dseg (<[p := n]> m) pv es nx.
Proof.
  revert pv. induction es as [|e es IH]; intros pv Hp; simpl; [done|].
  intros [He Hr]. split.
  - rewrite lookup_insert_ne by set_solver. done.
  - apply IH; [|done]. intros Hin. apply Hp. by apply elem_of_cons; right.
Qed.

Lemma dseg_frame_delete m p pv es nx :
  p ∉ es.*1 → dseg m pv es nx → dseg (delete p m) pv es nx.
Proof.
  revert pv. induction es as [|e es IH]; intros pv Hp; simpl; [done|].
  intros [He Hr]. split.
  - rewrite lookup_delete_ne by set_solver. done.
  - apply IH; [|done]. intros Hin. apply Hp. by apply elem_of_cons; right.
Qed.

Lemma dseg_app m pv a b nx :
  dseg m pv (a ++ b) nx ↔
  dseg m pv a (hd_ptr nx b) ∧ dseg m (last_ptr pv a) b nx.
Proof.
  revert pv. induction a as [|e a IH]; intros pv; simpl; [tauto|].
  rewrite IH, hd_ptr_app. tauto.
Qed.

Lemma dseg_allocated m pv es nx p :
  dseg m pv es nx → p ∈ es.*1 → is_Some (m !! p).
Proof.
  revert pv. induction es as [|e es IH]; intros pv; simpl; [set_solver|].
  intros [He Hr] [->|Hin]%elem_of_cons; eauto.
Qed.

(** Redirecting the back link of the first entry. *)
Lemma dseg_set_prev m pv pv' e es nx :
  e.1 ∉ es.*1 → dseg m pv (e :: es) nx →
  ∃ m', store e.1 (set_prev pv') m = Some m' ∧ dseg m' pv' (e :: es) nx.
Proof.
  simpl. intros Hne [He Hr]. eexists. split; [by apply store_Some|].
  split; [by rewrite lookup_insert_eq|]. by apply dseg_frame_insert.
Qed.

(** Redirecting the forward link of the last entry. *)
Lemma dseg_set_next m pv es e nx nx' :
  e.1 ∉ es.*1 → dseg m pv (es ++ [e]) nx →
  ∃ m', store e.1 (set_next nx') m = Some m' ∧ dseg m' pv (es ++ [e]) nx'.
Proof.
  intros Hne. rewrite dseg_app. simpl. intros (Ha & He & _).
  eexists. split; [by apply store_Some|].
  apply dseg_app. simpl. split; [by apply dseg_frame_insert|].
  split; [by rewrite lookup_insert_eq|done].
Qed.

Lemma length_le_size m (es : list (Z * payload)) :
  NoDup es.*1 → (∀ p, p ∈ es.*1 → is_Some (m !! p)) →
  (length es ≤ size m)%nat.
Proof.
  intros Hnd Hall.
  rewrite <-(length_fmap fst es), <-(size_list_to_set (C:=gset Z)) by done.
  rewrite <-size_dom. apply subseteq_size.
  intros p Hp. apply elem_of_dom, Hall. set_solver.
Qed.

Lemma dseg_frame_store m m' p g pv es nx :
  store p g m = Some m' → p ∉ es.*1 → dseg m pv es nx → dseg m' pv es nx.
Proof.
  unfold store. destruct (m !! p); simpl; [|done].
  intros [= <-]. apply dseg_frame_insert.
Qed.

Lemma store_lookup_eq m m' p n f :
  store p f m = Some m' → m !! p = Some n → m' !! p = Some (f n).
Proof.
  unfold store. intros Hs Hn. rewrite Hn in Hs. simpl in Hs.
  injection Hs as <-. by rewrite lookup_insert_eq.
Qed.

Lemma snoc_cases (es : list (Z * payload)) :
  es ≠ [] → ∃ a l, es = a ++ [l].
Proof.
  destruct es as [|e es _] using rev_ind; [done|]. eauto.
Qed.

Lemma hd_ptr_elem d (es : list (Z * payload)) :
  es ≠ [] → hd_ptr d es ∈ es.*1.
Proof. destruct es; [done|]. intros _. simpl. set_solver. Qed.

Lemma dseg_lookup m pv es nx p e :
  dseg m pv es nx → (p, e) ∈ es →
  ∃ nx' pv', m !! p = Some (node_of e nx' pv').
Proof.
  revert pv. induction es as [|x es IH]; intros pv; simpl.
  - by intros _ ?%elem_of_nil.
  - intros [Hx Hr] [<-|Hin]%elem_of_cons; eauto.
Qed.

(** The node the tail pointer designates points forward to the head. *)
Lemma ring_last m es :
  es ≠ [] → ring m es →
  ∃ e pv, m !! last_ptr NULL es = Some (node_of e (hd_ptr NULL es) pv).
Proof.
  intros [a [l ->]]%snoc_cases. unfold ring.
  rewrite dseg_app, last_ptr_app. simpl. intros (_ & Hl & _).
  rewrite hd_ptr_app in Hl |- *. simpl in Hl |- *. eauto.
Qed.

Lemma hd_ptr_default d d' (es : list (Z * payload)) :
  es ≠ [] → hd_ptr d es = hd_ptr d' es.
Proof. by destruct es. Qed.

Lemma last_ptr_default d d' (es : list (Z * payload)) :
  es ≠ [] → last_ptr d es = last_ptr d' es.
Proof. by destruct es. Qed.

Lemma dseg_set_prev_hd m pv pv' es nx :
  es ≠ [] → NoDup es.*1 → dseg m pv es nx →
  ∃ m', store (hd_ptr NULL es) (set_prev pv') m = Some m' ∧
        dseg m' pv' es nx.
Proof.
  destruct es as [|e es]; [done|]. intros _ [Hn _]%NoDup_cons.
  by apply dseg_set_prev.
Qed.

Lemma dseg_set_next_last m pv es nx nx' :
  es ≠ [] → NoDup es.*1 → dseg m pv es nx →
  ∃ m', store (last_ptr NULL es) (set_next nx') m = Some m' ∧
        dseg m' pv es nx'.
Proof.
  intros [a [l ->]]%snoc_cases Hnd. rewrite last_ptr_app. simpl.
  apply dseg_set_next.
  rewrite fmap_app in Hnd. apply NoDup_app in Hnd as (_ & Hd & _).
  intros Hin. apply (Hd _ Hin). simpl. by apply list_elem_of_singleton.
Qed.

(** [list_add] behind the last node appends to the ring. *)
Lemma list_add_tail m es new e nx pv :
  es ≠ [] → NoDup es.*1 → new ∉ es.*1 → ring m es →
  m !! new = Some (node_of e nx pv) →
  ∃ m', list_add new (last_ptr NULL es) m = Some m' ∧
        ring m' (es ++ [(new, e)]) ∧
        ∀ p, p ≠ new → p ∉ es.*1 → m' !! p = m !! p.
Proof.
  intros Hne Hnd Hnew Hring Hn.
  destruct (ring_last m es Hne Hring) as (el & pvl & Hl).
  unfold list_add, __list_add. rewrite Hl. simpl.
  pose proof (hd_ptr_elem NULL es Hne) as Hfin.
  pose proof (last_ptr_elem NULL es Hne) as Hlin.
  set (F := hd_ptr NULL es) in *. set (L := last_ptr NULL es) in *.
  assert (Hf : F ≠ new) by (by intros <-).
  assert (Hla : L ≠ new) by (by intros <-).
  (* next->prev = new *)
  destruct (dseg_set_prev_hd m L new es F Hne Hnd Hring) as (m1 & Hs1 & Hd1).
  fold F in Hs1. rewrite Hs1. simpl.
  (* new->next = next; new->prev = prev *)
  assert (Hn1 : m1 !! new = Some (node_of e nx pv)).
  { by rewrite (store_lookup_ne _ _ _ _ _ Hs1). }
  rewrite (store_Some _ _ _ _ Hn1). simpl.
  rewrite (store_Some _ new (set_next F (node_of e nx pv)))
    by apply lookup_insert_eq.
  simpl. rewrite insert_insert_eq.
  set (m3 := <[new := _]> m1).
  assert (Hd3 : dseg m3 new es F) by (by apply dseg_frame_insert).
  (* prev->next = new *)
  destruct (dseg_set_next_last m3 new es F new Hne Hnd Hd3)
    as (m4 & Hs4 & Hd4).
  fold L in Hs4. rewrite Hs4.
  eexists. split; [done|]. split.
  - unfold ring. rewrite last_ptr_app, hd_ptr_app. simpl.
    rewrite (hd_ptr_default new NULL) by done. fold F.
    apply dseg_app. simpl. split; [done|].
    rewrite (last_ptr_default new NULL) by done. fold L. split; [|done].
    rewrite (store_lookup_ne _ _ _ _ _ Hs4) by done.
    unfold m3. by rewrite lookup_insert_eq.
  - intros p Hp1 Hp2.
    rewrite (store_lookup_ne _ _ _ _ _ Hs4) by (by intros ->).
    unfold m3. rewrite lookup_insert_ne by done.
    rewrite (store_lookup_ne _ _ _ _ _ Hs1); [done|]. by intros ->.
Qed.
End memory_lemmas.

(** ** Emptying the list *)

Section free_entries_lemmas.
Implicit Types (m : gmap Z aoa_event_list_node) (p : Z).

(** First half of [__list_del] for the entry [a] behind [head]. *)
Lemma unlink_prev m head (a : Z * payload) rest ef :
  NoDup (head :: a.1 :: rest.*1) →
  m !! head = Some (node_of ef a.1 (last_ptr a.1 rest)) →
  dseg m a.1 rest head →
  ∃ m1, store (hd_ptr head rest) (set_prev head) m = Some m1 ∧
        m1 !! head = Some (node_of ef a.1 (last_ptr head rest)) ∧
        dseg m1 head rest head ∧
        ∀ p, p ∉ head :: rest.*1 → m1 !! p = m !! p.
Proof.
  intros Hnd Hh Hd. destruct rest as [|b r]; simpl in *.
  - eexists. split; [by apply store_Some|].
    split; [by rewrite lookup_insert_eq|]. split; [done|].
    intros p Hp. rewrite lookup_insert_ne; [done|].
    intros ->. apply Hp. by left.
  - destruct Hd as [Hb Hr].
    apply NoDup_cons in Hnd as [Hh1 Hnd].
    apply NoDup_cons in Hnd as [Ha1 Hnd].
    apply NoDup_cons in Hnd as [Hb1 Hnd].
    assert (head ≠ b.1) by (intros ->; set_solver).
    eexists. split; [by apply store_Some|].
    rewrite lookup_insert_ne by done. split; [done|].
    split.
    + split; [by rewrite lookup_insert_eq|]. by apply dseg_frame_insert.
    + intros p Hp. rewrite lookup_insert_ne; [done|].
      intros <-. apply Hp. set_solver.
Qed.

Lemma free_entries_ring rest : ∀ fuel m head ef,
  (length rest ≤ fuel)%nat →
  NoDup (head :: rest.*1) → NULL ∉ rest.*1 →
  m !! head = Some (node_of ef (hd_ptr head rest) (last_ptr head rest)) →
  dseg m head rest head →
  ∀ nd, m !! hd_ptr head rest = Some nd →
  ∃ m', free_entries fuel head (hd_ptr head rest) (next (node_list nd)) m
          = Some m' ∧
        m' !! head = Some (node_of ef head head) ∧
        (∀ p, p ∈ rest.*1 → m' !! p = None) ∧
        (∀ p, p ∉ head :: rest.*1 → m' !! p = m !! p).
Proof.
  induction rest as [|a rest IH]; intros fuel m head ef Hfuel Hnd Hnull Hh Hd nd Hn.
  - simpl in *. destruct fuel; simpl; rewrite decide_True by done;
      (eexists; split; [done|]; split; [done|]; split; [set_solver|done]).
  - simpl in Hh, Hd, Hn, Hfuel. destruct Hd as [Ha Hd].
    rewrite Ha in Hn. injection Hn as <-. simpl.
    apply NoDup_cons in Hnd as Hnd'. destruct Hnd' as [Hh1 Hnd'].
    apply NoDup_cons in Hnd' as [Ha1 Hnd'].
    assert (Hah : a.1 ≠ head) by (intros <-; set_solver).
    assert (Ha0 : a.1 ≠ NULL) by (intros E; apply Hnull; rewrite <-E; set_solver).
    destruct fuel as [|fuel]; [lia|].
    simpl. rewrite decide_False by done.
    (* list_del(&node->list) *)
    unfold list_del, __list_del. rewrite Ha. simpl.
    destruct (unlink_prev m head a rest ef Hnd Hh Hd) as (m1 & Hs1 & Hh1' & Hd1 & Hfr1).
    rewrite Hs1. simpl.
    rewrite (store_Some _ _ _ _ Hh1'). simpl.
    set (m2 := <[head := _]> m1).
    assert (Ha2 : m2 !! a.1 = Some (node_of a.2 (hd_ptr head rest) head)).
    { unfold m2. rewrite lookup_insert_ne by done. rewrite Hfr1; [done|].
      intros [?|?]%elem_of_cons; done. }
    rewrite (store_Some _ _ _ _ Ha2). simpl.
    rewrite (store_Some _ a.1 (set_next LIST_POISON1
               (node_of a.2 (hd_ptr head rest) head)))
      by apply lookup_insert_eq.
    simpl. rewrite insert_insert_eq.
    (* kfree(node) *)
    unfold kfree. rewrite decide_False by done.
    rewrite lookup_insert_eq. simpl. rewrite delete_insert_eq.
    set (m5 := delete a.1 m2).
    assert (Hh5 : m5 !! head
                  = Some (node_of ef (hd_ptr head rest) (last_ptr head rest))).
    { unfold m5, m2. rewrite lookup_delete_ne by done.
      by rewrite lookup_insert_eq. }
    assert (Hd5 : dseg m5 head rest head).
    { unfold m5, m2. apply dseg_frame_delete; [done|].
      apply dseg_frame_insert; [|done].
      intros Hin. apply Hh1. by apply elem_of_cons; right. }
    assert (Hb : is_Some (m5 !! hd_ptr head rest)).
    { destruct rest as [|b r]; simpl; [by rewrite Hh5|].
      simpl in Hd5. destruct Hd5 as [-> _]. eauto. }
    destruct Hb as [t Ht]. rewrite Ht. simpl.
    destruct (IH fuel m5 head ef) with (nd := t)
      as (m' & Hrun & Hh' & Hgone & Hfr); try done.
    { lia. }
    { apply NoDup_cons. split; [|done].
      intros Hin. apply Hh1. by apply elem_of_cons; right. }
    { intros Hin. apply Hnull. by apply elem_of_cons; right. }
    exists m'. split; [done|]. split; [done|]. split.
    + intros p [->|Hp]%elem_of_cons; [|by apply Hgone].
      rewrite Hfr; [apply lookup_delete_eq|].
      intros [?|?]%elem_of_cons; done.
    + intros p Hp. rewrite Hfr.
      * unfold m5, m2.
        rewrite lookup_delete_ne by (intros <-; apply Hp; set_solver).
        rewrite lookup_insert_ne by (intros ->; apply Hp; set_solver).
        apply Hfr1. intros Hin. apply Hp.
        apply elem_of_cons in Hin as [->|Hin];
          simpl; rewrite !elem_of_cons; tauto.
      * intros Hin. apply Hp.
        apply elem_of_cons in Hin as [->|Hin];
          simpl; rewrite !elem_of_cons; tauto.
Qed.

(** The loop of [aoa_event_node_add] run on the ring: every node but the
    first is freed, the first stays allocated and is left linked to itself,
    and memory outside the ring is not touched. *)
Lemma free_all m f rest :
  NoDup (f :: rest).*1 → NULL ∉ (f :: rest).*1 → ring m (f :: rest) →
  ∃ m', list_for_each_entry_safe_free f.1 m = Some m' ∧
        m' !! f.1 = Some (node_of f.2 f.1 f.1) ∧
        (∀ p, p ∈ rest.*1 → m' !! p = None) ∧
        (∀ p, p ∉ (f :: rest).*1 → m' !! p = m !! p).
Proof.
  intros Hnd Hnull Hring.
  unfold ring in Hring. simpl in Hring. destruct Hring as [Hf Hd].
  unfold list_for_each_entry_safe_free. rewrite Hf. simpl.
  assert (Hn : is_Some (m !! hd_ptr f.1 rest)).
  { destruct rest as [|b r]; simpl; [by rewrite Hf|].
    simpl in Hd. destruct Hd as [-> _]. eauto. }
  destruct Hn as [n Hn]. rewrite Hn. simpl.
  destruct (free_entries_ring rest (size m) m f.1 f.2) with (nd := n)
    as (m' & Hrun & Hhead & Hgone & Hfr); try done.
  - apply length_le_size.
    + by apply NoDup_cons in Hnd as [_ ?].
    + intros p Hp. by eapply dseg_allocated.
  - intros Hin. apply Hnull. by apply elem_of_cons; right.
  - by exists m'.
Qed.
End free_entries_lemmas.

(** ** The queue operations keep the invariant *)

Section queue_lemmas.
Implicit Types (q : event_queue) (es unread : list (Z * payload)).

Lemma queue_inv_empty : queue_inv empty_queue [] [].
Proof.
  split; simpl; try done.
  - constructor.
  - set_solver.
Qed.

Lemma queue_inv_fresh q es unread new :
  queue_inv q es unread → mem q !! new = None → new ∉ es.*1.
Proof.
  intros Hinv Hnew Hin.
  destruct (dseg_allocated _ _ _ _ _ (inv_ring _ _ _ Hinv) Hin) as [n Hn].
  congruence.
Qed.

Lemma hd_ptr_nonnull es :
  es ≠ [] → NULL ∉ es.*1 → hd_ptr NULL es ≠ NULL.
Proof. intros Hne Hnull E. apply Hnull. rewrite <-E at 1. by apply hd_ptr_elem. Qed.

Lemma suffix_nonnull es unread :
  unread `suffix_of` es → NULL ∉ es.*1 → NULL ∉ unread.*1.
Proof.
  intros [k ->] Hnull Hin. apply Hnull. rewrite fmap_app.
  by apply elem_of_app; right.
Qed.

(** Filling in the fresh node. *)
Lemma node_add_unfold new junk type st str q :
  new ≠ NULL →
  aoa_event_node_add new junk type st str q =
  let e := mk_payload type (default (node_str_type junk) st) str in
  let m3 := <[new := node_of e (next (node_list junk)) (prev (node_list junk))]> (mem q) in
  '(m4, first, nxt) ←
    (if decide (first_aoa_event_node q ≠ NULL ∧ type = AOA_EVENT_CONNECTED_ACM)
     then
       m' ← list_for_each_entry_safe_free (first_aoa_event_node q) m3;
       Some (m', NULL, NULL)
     else Some (m3, first_aoa_event_node q, next_aoa_event_node q));
  m5 ← INIT_LIST_HEAD new m4;
  '(m6, first', nxt') ←
    (if decide (first = NULL) then Some (m5, new, new)
     else
       m' ← list_add new (last_aoa_event_node q) m5;
       Some (m', first, nxt));
  let nxt'' := if decide (nxt' = NULL) then new else nxt' in
  Some (true, mk_queue m6 first' new nxt'').
Proof.
  intros Hnew. unfold aoa_event_node_add. rewrite decide_False by done.
  cbv zeta.
  erewrite store_Some by apply lookup_insert_eq.
  simpl. rewrite insert_insert_eq.
  destruct st as [st|]; simpl.
  - erewrite store_Some by apply lookup_insert_eq.
    simpl. rewrite insert_insert_eq.
    erewrite store_Some by apply lookup_insert_eq.
    simpl. rewrite insert_insert_eq. by destruct junk as [? ? ? []].
  - erewrite store_Some by apply lookup_insert_eq.
    simpl. rewrite insert_insert_eq. by destruct junk as [? ? ? []].
Qed.

Lemma init_list_head m new e nx pv :
  m !! new = Some (node_of e nx pv) →
  INIT_LIST_HEAD new m = Some (<[new := node_of e new new]> m).
Proof.
  intros Hn. unfold INIT_LIST_HEAD. rewrite (store_Some _ _ _ _ Hn). simpl.
  unfold store. rewrite lookup_insert_eq. simpl. by rewrite insert_insert_eq.
Qed.

(** A push that does not empty the list appends to it. *)
Lemma node_add_append q es unread new junk type st str :
  queue_inv q es unread → new ≠ NULL → mem q !! new = None →
  (type = AOA_EVENT_CONNECTED_ACM → es = []) → readable str →
  let e := mk_payload type (default (node_str_type junk) st) str in
  ∃ q', aoa_event_node_add new junk type st str q = Some (true, q') ∧
        queue_inv q' (es ++ [(new, e)]) (unread ++ [(new, e)]) ∧
        ∀ p, p ≠ new → mem q !! p = None → mem q' !! p = None.
Proof.
  intros Hinv Hnew Hfresh Hnoc Hstr e.
  pose proof (queue_inv_fresh _ _ _ _ Hinv Hfresh) as Hnotin.
  destruct Hinv as [Hnd Hnull Hring Hfirst Hlast Hnext Hsuf Hread].
  rewrite node_add_unfold by done. cbv zeta. fold e.
  rewrite decide_False; cycle 1.
  { intros [Hf Ht]. apply Hf. rewrite Hfirst. by rewrite (Hnoc Ht). }
  simpl. erewrite init_list_head by apply lookup_insert_eq.
  simpl. rewrite insert_insert_eq.
  set (m5 := <[new := node_of e new new]> (mem q)).
  destruct (decide (es = [])) as [->|Hne].
  - (* the list was empty *)
    apply suffix_nil_inv in Hsuf as ->. simpl in *.
    rewrite Hfirst. rewrite decide_True by done. simpl.
    rewrite decide_False by done.
    eexists. split; [done|]. split; [split; simpl; try done|].
    + apply NoDup_singleton.
    + intros E%list_elem_of_singleton. congruence.
    + unfold ring. simpl. split; [|done]. unfold m5.
      by rewrite lookup_insert_eq.
    + by constructor.
    + simpl. intros p Hp Hnone. unfold m5. by rewrite lookup_insert_ne.
  - (* behind the last node *)
    rewrite decide_False by (rewrite Hfirst; by apply hd_ptr_nonnull).
    rewrite Hlast by done.
    destruct (list_add_tail m5 es new e new new)
      as (m6 & Hadd & Hring6 & Hfr6); try done.
    { unfold ring in *. by apply dseg_frame_insert. }
    { unfold m5. by rewrite lookup_insert_eq. }
    rewrite Hadd. simpl.
    eexists. split; [done|]. split; [|shelve].
    split; cbn [mem first_aoa_event_node last_aoa_event_node
                next_aoa_event_node].
    + rewrite fmap_app. apply NoDup_app. split; [done|]. split.
      * intros x Hx. simpl. intros ->%list_elem_of_singleton. done.
      * apply NoDup_singleton.
    + rewrite fmap_app. simpl.
      intros [?|?%list_elem_of_singleton]%elem_of_app; done.
    + done.
    + rewrite hd_ptr_app, Hfirst. by apply hd_ptr_default.
    + intros _. by rewrite last_ptr_app.
    + rewrite hd_ptr_app. simpl.
      destruct unread as [|u unread]; simpl in *.
      * rewrite Hnext. by rewrite decide_True.
      * rewrite Hnext. rewrite decide_False; [done|].
        intros E. apply (suffix_nonnull _ _ Hsuf Hnull).
        rewrite <-E. set_solver.
    + by apply suffix_app.
    + apply Forall_app. split; [done|]. by constructor.
    Unshelve.
    simpl. intros p Hp Hnone. rewrite Hfr6; [|done|].
    * unfold m5. by rewrite lookup_insert_ne.
    * intros Hin.
      destruct (dseg_allocated _ _ _ _ _ Hring Hin) as [n Hn]. congruence.
Qed.

(** A [Connected] push leaves the new node alone in the list.  Of the
    nodes that were in the list, all but the first are freed; the first
    stays allocated, linked to itself, with no pointer left to it. *)
Lemma node_add_connected q es unread new junk st str :
  queue_inv q es unread → new ≠ NULL → mem q !! new = None →
  readable str →
  let e := mk_payload AOA_EVENT_CONNECTED_ACM
             (default (node_str_type junk) st) str in
  ∃ q', aoa_event_node_add new junk AOA_EVENT_CONNECTED_ACM st str q
          = Some (true, q') ∧
        queue_inv q' [(new, e)] [(new, e)] ∧
        match es with
        | [] => True
        | f :: rest =>
            mem q' !! f.1 = Some (node_of f.2 f.1 f.1) ∧
            ∀ p, p ∈ rest.*1 → mem q' !! p = None
        end.
Proof.
  intros Hinv Hnew Hfresh Hstr e.
  destruct es as [|f rest].
  { pose proof (inv_unread _ _ _ Hinv) as ->%suffix_nil_inv.
    destruct (node_add_append q [] [] new junk AOA_EVENT_CONNECTED_ACM
                st str) as (q' & Hq & Hinv' & _); eauto. }
  pose proof (queue_inv_fresh _ _ _ _ Hinv Hfresh) as Hnotin.
  destruct Hinv as [Hnd Hnull Hring Hfirst Hlast Hnext Hsuf Hread].
  rewrite node_add_unfold by done. cbv zeta. fold e.
  rewrite decide_True
    by (split; [rewrite Hfirst; by apply hd_ptr_nonnull|done]).
  rewrite Hfirst.
  set (m3 := <[new := _]> (mem q)).
  destruct (free_all m3 f rest) as (m4 & Hfree & Hhead & Hgone & Hfr);
    try done.
  { unfold ring in *. by apply dseg_frame_insert. }
  change (hd_ptr NULL (f :: rest)) with f.1.
  rewrite Hfree. simpl.
  erewrite init_list_head; cycle 1.
  { rewrite Hfr by done. unfold m3. apply lookup_insert_eq. }
  simpl. rewrite decide_False by done.
  eexists. split; [done|]. split; [split; simpl; try done|].
  - apply NoDup_singleton.
  - intros E%list_elem_of_singleton. congruence.
  - unfold ring. simpl. split; [|done]. by rewrite lookup_insert_eq.
  - by constructor.
  - simpl. split.
    + rewrite lookup_insert_ne; [done|]. intros ->. apply Hnotin.
      simpl. set_solver.
    + intros p Hp. rewrite lookup_insert_ne; [by apply Hgone|].
      intros ->. apply Hnotin. simpl. by apply elem_of_cons; right.
Qed.

Lemma strlen_lt s l : strlen s = Some l → (l < length s)%nat.
Proof.
  revert l. induction s as [|b s IH]; intros l; simpl; [done|].
  destruct (Byte.eqb b x00).
  - intros [= <-]. lia.
  - destruct (strlen s) as [l'|]; simpl; [|done].
    intros [= <-]. specialize (IH l' eq_refl). lia.
Qed.

Lemma c_string_length s l :
  strlen s = Some l → length (c_string s) = S l.
Proof.
  intros Hl. unfold c_string. rewrite Hl, length_take.
  apply strlen_lt in Hl. lia.
Qed.

(** The node under the cursor and where it points. *)
Lemma cursor_node q es done p e rest :
  es = done ++ (p, e) :: rest → ring (mem q) es →
  ∃ pv, mem q !! p = Some (node_of e (hd_ptr (hd_ptr NULL es) rest) pv).
Proof.
  intros -> Hring. unfold ring in Hring.
  apply dseg_app in Hring as [_ [Hp _]]. eauto.
Qed.

(** A read with a buffer of the right size and an entry under the cursor:
    the entry is serialised; if the copy to user space fails, the bytes
    copied so far are in the buffer and the cursor stays, otherwise the
    cursor moves on. *)
Lemma read_at_cursor q es p e rest signal not_copied buf :
  queue_inv q es ((p, e) :: rest) → buf ≠ NULL →
  aoa_read signal not_copied buf sizeof_aoa_event q
  = Some (if decide (not_copied ≠ 0)
          then Returned (- EFAULT)
                 (Some (Partial (view_size e - not_copied) (view e))) q
          else Returned (view_size e) (Some (view e))
                 (mk_queue (mem q) (first_aoa_event_node q)
                    (last_aoa_event_node q)
                    (if decide (last_aoa_event_node q = p) then NULL
                     else hd_ptr (hd_ptr NULL es) rest))).
Proof.
  intros [Hnd Hnull Hring Hfirst Hlast Hnext Hsuf Hread] Hbuf.
  destruct Hsuf as [done Hes].
  destruct (cursor_node q es done p e rest Hes Hring) as [pv Hp].
  assert (Hp0 : p ≠ NULL).
  { intros ->. apply Hnull. rewrite Hes, fmap_app. set_solver. }
  assert (Hre : readable (p_str e)).
  { rewrite Forall_forall in Hread. apply (Hread (p, e)).
    rewrite Hes. set_solver. }
  unfold aoa_read. rewrite decide_False by (intros [?|?]; done).
  simpl in Hnext. rewrite Hnext, decide_False by done.
  rewrite Hp.
  destruct e as [t st [s|]]; unfold view_size, view; simpl.
  - destruct Hre as (l & Hl & Hle). simpl in Hl. rewrite Hl. simpl.
    rewrite (decide_True (P := Z.of_nat l + 1 ≤ AOA_MAX_STR_SIZE)) by done.
    pose proof (strlen_lt _ _ Hl). unfold memcpy_from.
    rewrite (decide_True
               (P := 0 ≤ Z.of_nat l + 1 ≤ Z.of_nat (length s))) by lia.
    simpl.
    rewrite (c_string_length _ _ Hl). unfold c_string. rewrite Hl.
    destruct (decide (not_copied ≠ 0)); repeat f_equal; lia.
  - by destruct (decide (not_copied ≠ 0)).
Qed.

(** One successful read hands out the entry under the cursor and moves the
    cursor on. *)
Lemma read_step q es p e rest signal buf :
  queue_inv q es ((p, e) :: rest) → buf ≠ NULL →
  ∃ q', aoa_read signal 0 buf sizeof_aoa_event q
          = Some (Returned (view_size e) (Some (view e)) q') ∧
        queue_inv q' es rest ∧ mem q' = mem q.
Proof.
  intros Hinv Hbuf.
  rewrite (read_at_cursor q es p e rest signal 0 buf Hinv Hbuf).
  rewrite decide_False by (by intros ?).
  destruct Hinv as [Hnd Hnull Hring Hfirst Hlast Hnext Hsuf Hread].
  destruct Hsuf as [done Hes].
  assert (Hne : es ≠ []) by (rewrite Hes; by destruct done).
  eexists. split; [done|]. split; [|done].
  split; cbn [mem first_aoa_event_node last_aoa_event_node
              next_aoa_event_node]; try done.
  - rewrite Hlast by done.
    destruct (decide (rest = [])) as [->|Hrest].
    + rewrite Hes, last_ptr_app. simpl. by rewrite decide_True.
    + rewrite decide_False.
      * by apply hd_ptr_default.
      * intros E. rewrite Hes in E, Hnd.
        rewrite last_ptr_app in E. simpl in E.
        rewrite fmap_app in Hnd. apply NoDup_app in Hnd as (_ & _ & Hnd).
        simpl in Hnd. apply NoDup_cons in Hnd as [Hnot _].
        apply Hnot. rewrite <-E. by apply last_ptr_elem.
  - exists (done ++ [(p, e)]). by rewrite <-app_assoc.
Qed.

(** With nothing under the cursor a reader waits, or is interrupted. *)
Lemma read_empty q es signal not_copied buf :
  queue_inv q es [] → buf ≠ NULL →
  aoa_read signal not_copied buf sizeof_aoa_event q
  = Some (if signal then Returned (- EINTR) None q else Sleeping).
Proof.
  intros Hinv Hbuf. unfold aoa_read.
  rewrite decide_False by (intros [?|?]; done).
  by rewrite (inv_next _ _ _ Hinv), decide_True.
Qed.

Lemma read_n_unread q es unread buf :
  queue_inv q es unread → buf ≠ NULL →
  ∃ q', read_n (length unread) buf q = Some (view <$> unread.*2, q') ∧
        queue_inv q' es [].
Proof.
  intros Hinv Hbuf. revert q Hinv.
  induction unread as [|[p e] rest IH]; intros q Hinv; simpl.
  - eauto.
  - destruct (read_step q es p e rest false buf Hinv Hbuf)
      as (q1 & -> & Hinv1 & _).
    simpl. destruct (IH q1 Hinv1) as (q' & -> & Hinv'). simpl. eauto.
Qed.

Lemma rewind_inv q es unread :
  queue_inv q es unread → queue_inv (rewind q) es es.
Proof. intros []. by split. Qed.
End queue_lemmas.

(** ** The producers *)

Section producer_lemmas.
Implicit Types (q : event_queue) (es unread : list (Z * payload)).

Lemma event_add_append q es unread new junk type :
  queue_inv q es unread → new ≠ NULL → mem q !! new = None →
  (type = AOA_EVENT_CONNECTED_ACM → es = []) →
  let e := mk_payload type (node_str_type junk) None in
  ∃ q', aoa_event_add new junk type q = Some q' ∧
        queue_inv q' (es ++ [(new, e)]) (unread ++ [(new, e)]) ∧
        ∀ p, p ≠ new → mem q !! p = None → mem q' !! p = None.
Proof.
  intros Hinv Hnew Hfresh Hnoc e.
  destruct (node_add_append q es unread new junk type None None)
    as (q' & Hq & Hinv' & Hfr); try done.
  exists q'. unfold aoa_event_add. by rewrite Hq.
Qed.

Lemma event_add_connected q es unread new junk :
  queue_inv q es unread → new ≠ NULL → mem q !! new = None →
  let e := mk_payload AOA_EVENT_CONNECTED_ACM (node_str_type junk) None in
  ∃ q', aoa_event_add new junk AOA_EVENT_CONNECTED_ACM q = Some q' ∧
        queue_inv q' [(new, e)] [(new, e)] ∧
        match es with
        | [] => True
        | f :: rest =>
            mem q' !! f.1 = Some (node_of f.2 f.1 f.1) ∧
            ∀ p, p ∈ rest.*1 → mem q' !! p = None
        end.
Proof.
  intros Hinv Hnew Hfresh e.
  destruct (node_add_connected q es unread new junk None None)
    as (q' & Hq & Hinv' & Hmem); try done.
  exists q'. unfold aoa_event_add. by rewrite Hq.
Qed.

Lemma strlen_terminated (s : list byte) :
  ∃ l, strlen (s ++ [x00]) = Some l ∧ (l ≤ length s)%nat.
Proof.
  induction s as [|b s (l & Hl & Hle)]; simpl.
  - exists O. by split.
  - destruct (Byte.eqb b x00).
    + exists O. split; [done|lia].
    + exists (S l). rewrite Hl. split; [done|lia].
Qed.

Lemma stored_str_length strbuf len :
  0 ≤ len ≤ Z.of_nat (length strbuf) →
  Z.of_nat (length (stored_str strbuf len))
  = Z.min (len + 1) AOA_MAX_STR_SIZE.
Proof.
  intros Hlen. unfold stored_str. rewrite length_app, length_take. simpl.
  unfold AOA_MAX_STR_SIZE in *. lia.
Qed.

Lemma stored_str_readable strbuf len :
  0 ≤ len ≤ Z.of_nat (length strbuf) →
  readable (Some (stored_str strbuf len)).
Proof.
  intros Hlen. simpl. unfold stored_str.
  destruct (strlen_terminated
              (take (Z.to_nat (Z.min (len + 1) AOA_MAX_STR_SIZE - 1)) strbuf))
    as (l & Hl & Hle).
  exists l. split; [done|]. rewrite length_take in Hle.
  unfold AOA_MAX_STR_SIZE in *. lia.
Qed.

Lemma size_t_small z : 0 ≤ z ≤ SIZE_MAX → size_t z = z.
Proof.
  unfold size_t, SIZE_MAX, SIZE_BITS. intros Hz.
  apply Z.mod_small. lia.
Qed.

(** With both allocations granted, the string event is the call
    [aoa_event_node_add] of the truncated, terminated copy. *)
Lemma str_received_unfold new junk type strbuf len q :
  0 ≤ len ≤ Z.of_nat (length strbuf) → len < SIZE_MAX →
  aoa_str_received_event_add true new junk type strbuf len q
  = r ← aoa_event_node_add new junk AOA_EVENT_STRING_RECEIVED (Some type)
          (Some (stored_str strbuf len)) q;
    Some r.2.
Proof.
  intros Hlen Hmax. unfold aoa_str_received_event_add. simpl negb. cbv iota.
  assert (HM : 256 ≤ SIZE_MAX) by (by vm_compute).
  rewrite (size_t_small (len + 1)) by lia.
  rewrite size_t_small by (unfold AOA_MAX_STR_SIZE; lia).
  unfold memcpy_from.
  rewrite decide_True by (unfold AOA_MAX_STR_SIZE; lia).
  simpl. rewrite decide_False by (unfold AOA_MAX_STR_SIZE; lia).
  done.
Qed.

Lemma str_received_append q es unread new junk type strbuf len :
  queue_inv q es unread → new ≠ NULL → mem q !! new = None →
  0 ≤ len ≤ Z.of_nat (length strbuf) → len < SIZE_MAX →
  let e := mk_payload AOA_EVENT_STRING_RECEIVED type
             (Some (stored_str strbuf len)) in
  ∃ q', aoa_str_received_event_add true new junk type strbuf len q = Some q' ∧
        queue_inv q' (es ++ [(new, e)]) (unread ++ [(new, e)]) ∧
        ∀ p, p ≠ new → mem q !! p = None → mem q' !! p = None.
Proof.
  intros Hinv Hnew Hfresh Hlen Hmax e.
  rewrite str_received_unfold by done.
  destruct (node_add_append q es unread new junk AOA_EVENT_STRING_RECEIVED
              (Some type) (Some (stored_str strbuf len)))
    as (q' & Hq & Hinv' & Hfr); try done.
  { by apply stored_str_readable. }
  exists q'. by rewrite Hq.
Qed.

Lemma do_push_append q es unread p :
  queue_inv q es unread → push_addr p ≠ NULL →
  mem q !! push_addr p = None → ¬ is_connected p → well_sized p →
  ∃ q', do_push p q = Some q' ∧
        queue_inv q' (es ++ [entry_of p]) (unread ++ [entry_of p]) ∧
        ∀ a, a ≠ push_addr p → mem q !! a = None → mem q' !! a = None.
Proof.
  intros Hinv Hnull Hfresh Hnc Hws. destruct p as [a j t|a j t b l]; simpl in *.
  - by apply event_add_append.
  - destruct Hws. by apply str_received_append.
Qed.

Lemma do_pushes_append ps : ∀ q es unread,
  queue_inv q es unread →
  NoDup (push_addr <$> ps) →
  Forall (λ p, push_addr p ≠ NULL ∧ mem q !! push_addr p = None) ps →
  Forall (λ p, ¬ is_connected p) ps → Forall well_sized ps →
  ∃ q', do_pushes ps q = Some q' ∧
        queue_inv q' (es ++ (entry_of <$> ps)) (unread ++ (entry_of <$> ps)).
Proof.
  induction ps as [|p ps IH]; intros q es unread Hinv Hnd Hfresh Hnc Hws; simpl.
  - exists q. by rewrite !app_nil_r.
  - apply NoDup_cons in Hnd as [Hp Hnd].
    apply Forall_cons in Hfresh as [[Hp0 Hpf] Hfresh].
    apply Forall_cons in Hnc as [Hpc Hnc].
    apply Forall_cons in Hws as [Hpw Hws].
    destruct (do_push_append q es unread p) as (q1 & -> & Hinv1 & Hfr);
      try done.
    simpl.
    destruct (IH q1 (es ++ [entry_of p]) (unread ++ [entry_of p]))
      as (q' & -> & Hinv'); try done.
    + rewrite Forall_forall in Hfresh |- *. intros x Hx.
      destruct (Hfresh x Hx) as [Hx0 Hxf]. split; [done|].
      apply Hfr; [|done]. intros E. apply Hp. rewrite <-E.
      by apply list_elem_of_fmap_2.
    + exists q'. by rewrite <-!app_assoc in Hinv'.
Qed.
End producer_lemmas.

(** ** Every reachable state has a well-formed queue *)

Section reachable_lemmas.
Implicit Types (q : event_queue) (st : state) (es unread : list (Z * payload)).

(** When [kmalloc] fails the event is dropped and the queue is untouched. *)
Lemma node_add_alloc_failure junk type sty str q :
  aoa_event_node_add NULL junk type sty str q = Some (false, q).
Proof. unfold aoa_event_node_add. by rewrite decide_True. Qed.

Lemma event_add_alloc_failure junk type q :
  aoa_event_add NULL junk type q = Some q.
Proof. unfold aoa_event_add. by rewrite node_add_alloc_failure. Qed.

Lemma str_received_alloc_failure new junk type strbuf len q :
  aoa_str_received_event_add false new junk type strbuf len q = Some q.
Proof. done. Qed.

Lemma event_add_inv q es unread new junk type :
  queue_inv q es unread → new = NULL ∨ mem q !! new = None →
  ∃ q' es' unread', aoa_event_add new junk type q = Some q' ∧
                    queue_inv q' es' unread'.
Proof.
  intros Hinv Hnew. destruct (decide (new = NULL)) as [->|Hn].
  { rewrite event_add_alloc_failure. eauto. }
  destruct Hnew as [?|Hfresh]; [done|].
  destruct (decide (type = AOA_EVENT_CONNECTED_ACM)) as [->|Ht].
  - destruct (event_add_connected q es unread new junk) as (q' & ? & ? & _);
      eauto.
  - destruct (event_add_append q es unread new junk type)
      as (q' & ? & ? & _); eauto. done.
Qed.

Lemma str_received_inv q es unread ok new junk type strbuf len :
  queue_inv q es unread → new = NULL ∨ mem q !! new = None →
  0 ≤ len ≤ Z.of_nat (length strbuf) → len < SIZE_MAX →
  ∃ q' es' unread',
    aoa_str_received_event_add ok new junk type strbuf len q = Some q' ∧
    queue_inv q' es' unread'.
Proof.
  intros Hinv Hnew Hlen Hmax. destruct ok; [|by eauto].
  destruct (decide (new = NULL)) as [->|Hn].
  { rewrite str_received_unfold, node_add_alloc_failure by done. simpl. eauto. }
  destruct Hnew as [?|Hfresh]; [done|].
  destruct (str_received_append q es unread new junk type strbuf len)
    as (q' & ? & ? & _); eauto.
Qed.

Lemma read_inv q es unread signal not_copied buf len :
  queue_inv q es unread →
  ∃ res, aoa_read signal not_copied buf len q = Some res ∧
         match res with
         | Returned _ _ q' => ∃ unread', queue_inv q' es unread'
         | Sleeping => True
         end.
Proof.
  intros Hinv.
  destruct (decide (buf = NULL ∨ len ≠ sizeof_aoa_event)) as [Hbad|Hok].
  { unfold aoa_read. rewrite decide_True by done.
    eexists. split; [done|]. simpl. eauto. }
  assert (buf ≠ NULL ∧ len = sizeof_aoa_event) as [Hbuf ->].
  { split; [tauto|]. destruct (decide (len = sizeof_aoa_event)); tauto. }
  destruct unread as [|[p e] rest].
  - rewrite (read_empty q es) by done.
    destruct signal; (eexists; split; [done|]); simpl; eauto.
  - destruct (decide (not_copied = 0)) as [->|Hnc].
    + destruct (read_step q es p e rest signal buf) as (q' & -> & ? & _);
        [done..|].
      eexists. split; [done|]. simpl. eauto.
    + rewrite (read_at_cursor q es p e rest) by done.
      rewrite decide_True by done.
      eexists. split; [done|]. simpl. eauto.
Qed.

Lemma open_queue probe_ret st :
  queue (aoa_open probe_ret st).2 = queue st ∨
  queue (aoa_open probe_ret st).2 = rewind (queue st).
Proof.
  unfold aoa_open, atomic_xchg. destruct (aoa_ctrl_open st); [by left|].
  destruct (switch_mode _ _ _) as [ret m]. case_decide; simpl; eauto.
Qed.

Lemma release_queue st : queue (aoa_release st).2 = queue st.
Proof. unfold aoa_release. by destruct (switch_mode _ _ _). Qed.

Lemma ioctl_queue probe_ret code st :
  queue (aoa_ioctl probe_ret code st).2 = queue st.
Proof. unfold aoa_ioctl. repeat case_decide; done. Qed.

Lemma set_connected_inv st es unread new junk b :
  queue_inv (queue st) es unread → fresh_or_null new st →
  ∃ st' es' unread', aoa_set_connected_acm new junk b st = Some st' ∧
                     queue_inv (queue st') es' unread'.
Proof.
  intros Hinv Hnew. unfold aoa_set_connected_acm, atomic_xchg.
  case_decide; [|by eauto]. simpl.
  destruct (event_add_inv _ _ _ new junk
              (if b then AOA_EVENT_CONNECTED_ACM
               else AOA_EVENT_DISCONNECTED_ACM) Hinv Hnew)
    as (q' & es' & unread' & -> & Hinv').
  simpl. eauto.
Qed.

(** No allowed request faults, and each keeps the queue well-formed. *)
Lemma step_inv r st es unread :
  queue_inv (queue st) es unread → allowed r st →
  ∃ st' es' unread', step r st = Some st' ∧ queue_inv (queue st') es' unread'.
Proof.
  intros Hinv Hok. destruct r; simpl in *.
  - by eapply set_connected_inv.
  - destruct (event_add_inv _ _ _ new_node junk type Hinv Hok)
      as (q' & es' & unread' & -> & Hinv'). simpl. eauto.
  - destruct Hok as (Hnew & Hlen & Hmax).
    destruct (str_received_inv _ _ _ str_ok new_node junk type strbuf len
                Hinv Hnew Hlen Hmax) as (q' & es' & unread' & -> & Hinv').
    simpl. eauto.
  - destruct (open_queue probe_ret st) as [Hq|Hq];
      do 3 eexists; (split; [done|]); rewrite Hq; [done|].
    by eapply rewind_inv.
  - do 3 eexists. split; [done|]. by rewrite release_queue.
  - do 3 eexists. split; [done|]. by rewrite ioctl_queue.
  - destruct (read_inv _ _ _ signal not_copied buf len Hinv)
      as (res & -> & Hres). simpl.
    destruct res as [ret out q'|]; [destruct Hres as [unread' ?]|]; eauto.
Qed.

Lemma reachable_queue_inv st :
  reachable st → ∃ es unread, queue_inv (queue st) es unread.
Proof.
  induction 1 as [|st r st' _ (es & unread & Hinv) Hok Hstep].
  - exists [], []. apply queue_inv_empty.
  - destruct (step_inv r st es unread Hinv Hok)
      as (st1 & es' & unread' & Hstep' & Hinv').
    rewrite Hstep in Hstep'. injection Hstep' as <-. eauto.
Qed.

Lemma reachable_no_fault st r :
  reachable st → allowed r st → is_Some (step r st).
Proof.
  intros (es & unread & Hinv)%reachable_queue_inv Hok.
  destruct (step_inv r st es unread Hinv Hok) as (st' & _ & _ & -> & _). eauto.
Qed.
End reachable_lemmas.

(** * The gadget mode *)

Section mode_theorems.
Implicit Types (s : mode_ctl) (st : state).

(** C4. [switch_mode] asked for the mode that is already current returns
    0 at once and leaves the whole controller as it was: the current mode,
    the descriptors and the record of transport calls, so nothing was
    unregistered or registered. *)
Theorem switch_mode_same_mode probe_ret s :
  switch_mode probe_ret (current_mode s) s = (0, s).
Proof. unfold switch_mode. by rewrite decide_True. Qed.

(** What every failing probe does to [switch_mode]: the error is returned
    and [current_mode] is left as it was before the call, although the old
    personality, if there was one, has been unregistered by then.  C1 is
    settled on the run below, [switch_mode_probe_failure_not_none]. *)
Theorem switch_mode_probe_failure probe_ret target s :
  current_mode s ≠ target → target ≠ MODE_NONE → probe_ret ≠ 0 →
  (switch_mode probe_ret target s).1 = probe_ret ∧
  current_mode (switch_mode probe_ret target s).2 = current_mode s ∧
  transport (switch_mode probe_ret target s).2
  = transport s
    ++ (if decide (current_mode s ≠ MODE_NONE)
        then [usb_composite_unregister; gserial_cleanup] else [])
    ++ [usb_composite_probe
          (if decide (target = MODE_ACM) then gs_bind_acm else gs_bind_aoa)].
Proof.
  intros Hcur Htarget Hret. unfold switch_mode.
  rewrite decide_False by done.
  destruct target; [done| |]; rewrite decide_True by done; simpl;
    (destruct (decide (current_mode s ≠ MODE_NONE)); simpl;
     rewrite <-?app_assoc; done).
Qed.

(** C9. [reset_mode] never changes [current_mode].  In [MODE_NONE] it
    returns 0 and touches nothing; otherwise it unregisters, cleans up
    and probes again with the bind callback of the current mode, and
    returns what the probe returned, be it 0 or an error. *)
Theorem reset_mode_keeps_mode probe_ret s :
  current_mode (reset_mode probe_ret s).2 = current_mode s ∧
  match current_mode s with
  | MODE_NONE => reset_mode probe_ret s = (0, s)
  | MODE_ACM =>
      (reset_mode probe_ret s).1 = probe_ret ∧
      transport (reset_mode probe_ret s).2
      = transport s ++ [usb_composite_unregister; gserial_cleanup;
                        usb_composite_probe gs_bind_acm]
  | MODE_AOA =>
      (reset_mode probe_ret s).1 = probe_ret ∧
      transport (reset_mode probe_ret s).2
      = transport s ++ [usb_composite_unregister; gserial_cleanup;
                        usb_composite_probe gs_bind_aoa]
  end.
Proof.
  unfold reset_mode. destruct s as [[] cfg dd sd tr]; simpl;
    rewrite <-?app_assoc; done.
Qed.

(** C5. While the control device is open, [aoa_open] returns [-EBUSY] and
    the state is what it was: the open flag stays set, and neither the
    mode controller nor the event queue is touched. *)
Theorem second_open_is_busy probe_ret st :
  aoa_ctrl_open st = true → aoa_open probe_ret st = (- EBUSY, st).
Proof.
  intros Hopen. unfold aoa_open, atomic_xchg. rewrite Hopen.
  destruct st; simpl in *. by subst.
Qed.
End mode_theorems.

(** * The event queue *)

Section queue_theorems.
Implicit Types (q : event_queue) (es unread : list (Z * payload)).

(** C7. A read whose length is not [sizeof(struct aoa_event)] returns
    [-EINVAL] and hands back the queue as it was: same nodes, same cursor,
    nothing copied out. *)
Theorem read_wrong_length signal not_copied buf len q :
  len ≠ sizeof_aoa_event →
  aoa_read signal not_copied buf len q = Some (Returned (- EINVAL) None q).
Proof. intros Hlen. unfold aoa_read. rewrite decide_True; [done|by right]. Qed.

(** C2. Pushing [AOA_EVENT_CONNECTED_ACM] on a queue whose log holds any
    entries [es], read or not, leaves the new node as head, tail and
    cursor, and the log is that one entry: one read from the cursor hands
    out the event and leaves the cursor empty, and so does one read after
    the cursor is put back on the head.  The new node is none of the
    earlier ones. *)
Theorem connected_push_compacts q es unread new junk buf :
  queue_inv q es unread → new ≠ NULL → mem q !! new = None → buf ≠ NULL →
  ∃ q', aoa_event_add new junk AOA_EVENT_CONNECTED_ACM q = Some q' ∧
    first_aoa_event_node q' = new ∧
    last_aoa_event_node q' = new ∧
    next_aoa_event_node q' = new ∧
    (new ∉ es.*1) ∧
    queue_inv q'
      [(new, mk_payload AOA_EVENT_CONNECTED_ACM (node_str_type junk) None)]
      [(new, mk_payload AOA_EVENT_CONNECTED_ACM (node_str_type junk) None)] ∧
    (∃ q'', read_n 1 buf q'
            = Some ([TypeOnly AOA_EVENT_CONNECTED_ACM], q'') ∧
            next_aoa_event_node q'' = NULL) ∧
    (∃ q'', read_n 1 buf (rewind q')
            = Some ([TypeOnly AOA_EVENT_CONNECTED_ACM], q'') ∧
            next_aoa_event_node q'' = NULL).
Proof.
  intros Hinv Hnew Hfresh Hbuf.
  destruct (event_add_connected q es unread new junk Hinv Hnew Hfresh)
    as (q' & Hq & Hinv' & _).
  exists q'. split; [done|].
  split; [by rewrite (inv_first _ _ _ Hinv')|].
  split; [by rewrite (inv_last _ _ _ Hinv')|].
  split; [by rewrite (inv_next _ _ _ Hinv')|].
  split; [by eapply queue_inv_fresh|]. split; [done|]. split.
  - destruct (read_n_unread _ _ _ buf Hinv' Hbuf) as (q'' & Hr & Hinv'').
    exists q''. split; [done|]. by rewrite (inv_next _ _ _ Hinv'').
  - destruct (read_n_unread _ _ _ buf (rewind_inv _ _ _ Hinv') Hbuf)
      as (q'' & Hr & Hinv'').
    exists q''. split; [done|]. by rewrite (inv_next _ _ _ Hinv'').
Qed.

(** C3. Pushes that contain no [AOA_EVENT_CONNECTED_ACM] all succeed, and
    as many reads as there are unread entries then hand out, in this
    order, what was unread before followed by the pushed records in the
    order they were pushed; after that the cursor is empty. *)
Theorem reads_are_fifo q es unread ps buf :
  queue_inv q es unread → buf ≠ NULL →
  NoDup (push_addr <$> ps) →
  Forall (λ p, push_addr p ≠ NULL ∧ mem q !! push_addr p = None) ps →
  Forall (λ p, ¬ is_connected p) ps → Forall well_sized ps →
  ∃ q1 q2, do_pushes ps q = Some q1 ∧
    read_n (length unread + length ps) buf q1
    = Some ((view <$> unread.*2) ++ (view <$> (pushed <$> ps)), q2) ∧
    next_aoa_event_node q2 = NULL.
Proof.
  intros Hinv Hbuf Hnd Hfresh Hnc Hws.
  destruct (do_pushes_append ps q es unread) as (q1 & Hq1 & Hinv1); try done.
  destruct (read_n_unread _ _ _ buf Hinv1 Hbuf) as (q2 & Hr & Hinv2).
  exists q1, q2. split; [done|]. split.
  - rewrite length_app, length_fmap in Hr. rewrite Hr.
    do 2 f_equal. rewrite !fmap_app. f_equal.
    rewrite <-!list_fmap_compose. done.
  - by rewrite (inv_next _ _ _ Hinv2).
Qed.

(** C8. With both allocations granted, [aoa_str_received_event_add] for a
    buffer of [len] bytes stores, in the new node, the first
    [min(len + 1, 256) - 1] bytes of the buffer followed by a NUL: at
    most 256 bytes with the terminator, the whole buffer when
    [len + 1 <= 256], and its first 255 bytes otherwise. *)
Theorem stored_string_bounded q es unread new junk type strbuf len :
  queue_inv q es unread → new ≠ NULL → mem q !! new = None →
  len = Z.of_nat (length strbuf) → len < SIZE_MAX →
  ∃ q' n s, aoa_str_received_event_add true new junk type strbuf len q
            = Some q' ∧
    mem q' !! new = Some n ∧
    node_type n = AOA_EVENT_STRING_RECEIVED ∧
    node_str_type n = type ∧
    node_str n = Some s ∧
    s = take (Z.to_nat (Z.min (len + 1) AOA_MAX_STR_SIZE - 1)) strbuf
        ++ [x00] ∧
    s = (if decide (len + 1 ≤ AOA_MAX_STR_SIZE) then strbuf ++ [x00]
         else take 255 strbuf ++ [x00]) ∧
    Z.of_nat (length s) = Z.min (len + 1) AOA_MAX_STR_SIZE ∧
    Z.of_nat (length s) ≤ AOA_MAX_STR_SIZE.
Proof.
  intros Hinv Hnew Hfresh Hlen Hmax.
  destruct (str_received_append q es unread new junk type strbuf len)
    as (q' & Hq & Hinv' & _); try done; [lia|].
  destruct (dseg_lookup _ _ _ _ new
              (mk_payload AOA_EVENT_STRING_RECEIVED type
                          (Some (stored_str strbuf len)))
              (inv_ring _ _ _ Hinv')) as (nx & pv & Hn); [set_solver|].
  eexists q', _, _. split; [done|]. split; [done|]. simpl.
  split; [done|]. split; [done|]. split; [done|]. split; [done|]. split.
  - unfold stored_str. case_decide.
    + rewrite take_ge; [done|]. unfold AOA_MAX_STR_SIZE in *. lia.
    + do 2 f_equal. unfold AOA_MAX_STR_SIZE in *. lia.
  - rewrite stored_str_length by lia. unfold AOA_MAX_STR_SIZE. lia.
Qed.

(** C6. An [aoa_open] that returns 0 puts the cursor back on the first
    node and changes nothing else in the queue; as many reads as the log
    has entries then hand out the whole log, oldest first, whether or not
    an entry had been read before, and leave the cursor empty. *)
Theorem open_replays_log probe_ret st es unread buf :
  queue_inv (queue st) es unread → buf ≠ NULL →
  (aoa_open probe_ret st).1 = 0 →
  queue (aoa_open probe_ret st).2 = rewind (queue st) ∧
  next_aoa_event_node (queue (aoa_open probe_ret st).2)
  = first_aoa_event_node (queue st) ∧
  ∃ q', read_n (length es) buf (queue (aoa_open probe_ret st).2)
        = Some (view <$> es.*2, q') ∧
        next_aoa_event_node q' = NULL.
Proof.
  intros Hinv Hbuf Hret.
  assert (Hq : queue (aoa_open probe_ret st).2 = rewind (queue st)).
  { revert Hret. unfold aoa_open, atomic_xchg.
    destruct (aoa_ctrl_open st); [done|].
    destruct (switch_mode probe_ret MODE_ACM _) as [ret m].
    case_decide; simpl; [done|]. intros ->. done. }
  rewrite Hq. split; [done|]. split; [done|].
  destruct (read_n_unread _ _ _ buf (rewind_inv _ _ _ Hinv) Hbuf)
    as (q' & Hr & Hinv').
  exists q'. split; [done|]. by rewrite (inv_next _ _ _ Hinv').
Qed.
End queue_theorems.

(** * The connection flag *)

Section connected_theorems.
Implicit Types (st : state) (es unread : list (Z * payload)).

(** C10, as the code has it.  [aoa_set_connected_acm] is edge-triggered.
    It always leaves the flag at the reported value and touches neither
    the open flag nor the mode controller.  A report of the value the flag
    already has changes nothing at all.  A report of a different value
    makes one push: when the node is allocated, of
    [AOA_EVENT_DISCONNECTED_ACM], appended to the log, when the value is
    false, and of [AOA_EVENT_CONNECTED_ACM], which becomes the whole log,
    when it is true; when [kmalloc] fails the push drops the event and the
    queue is as it was, the flag being changed all the same.  The same
    report made again, whatever the allocator would answer, changes
    nothing. *)
Theorem set_connected_edge_triggered st es unread new junk b :
  queue_inv (queue st) es unread →
  new = NULL ∨ mem (queue st) !! new = None →
  ∃ st', aoa_set_connected_acm new junk b st = Some st' ∧
    aoa_connected_acm st' = b ∧
    aoa_ctrl_open st' = aoa_ctrl_open st ∧
    modes st' = modes st ∧
    (if decide (aoa_connected_acm st = b) then st' = st
     else if decide (new = NULL) then queue st' = queue st
     else
       let e := mk_payload (if b then AOA_EVENT_CONNECTED_ACM
                            else AOA_EVENT_DISCONNECTED_ACM)
                           (node_str_type junk) None in
       queue_inv (queue st') ((if b then [] else es) ++ [(new, e)])
                 ((if b then [] else unread) ++ [(new, e)])) ∧
    ∀ new' junk', aoa_set_connected_acm new' junk' b st' = Some st'.
Proof.
  intros Hinv Halloc.
  assert (Hsame : ∀ st1 n j, aoa_connected_acm st1 = b →
            aoa_set_connected_acm n j b st1 = Some st1).
  { intros st1 n j Hb. unfold aoa_set_connected_acm, atomic_xchg.
    rewrite decide_False by (by intros ?). destruct st1; simpl in *.
    by subst. }
  destruct (decide (aoa_connected_acm st = b)) as [Heq|Hneq].
  { exists st. rewrite Hsame by done. repeat (split; [done|]).
    intros n j. by apply Hsame. }
  destruct (decide (new = NULL)) as [->|Hnew].
  { exists (mk_state b (aoa_ctrl_open st) (modes st) (queue st)). split.
    - unfold aoa_set_connected_acm, atomic_xchg.
      rewrite decide_True by done. by rewrite event_add_alloc_failure.
    - repeat (split; [done|]). intros n j. by apply Hsame. }
  destruct Halloc as [?|Hfresh]; [done|].
  unfold aoa_set_connected_acm, atomic_xchg.
  rewrite decide_True by done. simpl.
  destruct b.
  - destruct (event_add_connected _ _ _ new junk Hinv Hnew Hfresh)
      as (q' & -> & Hinv' & _).
    simpl. eexists. split; [done|]. repeat (split; [done|]).
    intros n j. by apply Hsame.
  - destruct (event_add_append _ _ _ new junk AOA_EVENT_DISCONNECTED_ACM
                Hinv Hnew Hfresh) as (q' & -> & Hinv' & _); [done|].
    simpl. eexists. split; [done|]. repeat (split; [done|]).
    intros n j. by apply Hsame.
Qed.
End connected_theorems.

(** * Concrete runs *)

Lemma demo_queue_inv : queue_inv demo_queue demo_log demo_log.
Proof.
  destruct (do_pushes_append demo_pushes empty_queue [] [] queue_inv_empty)
    as (q' & Hq & Hinv).
  - apply (bool_decide_unpack _). by vm_compute.
  - repeat constructor; by vm_compute.
  - repeat constructor; by vm_compute.
  - repeat constructor; by vm_compute.
  - unfold demo_queue. by rewrite Hq.
Qed.

(** C1 fails on the code.  AOA is current, the switch to ACM fails in
    [usb_composite_probe] with -19 and the error is returned; by then the
    AOA personality has been unregistered, yet [current_mode] is still
    [MODE_AOA], not [MODE_NONE].  The recorded mode no longer says what is
    registered: the next switch to AOA takes the shortcut for the current
    mode and returns 0 without registering anything. *)
Lemma switch_mode_probe_failure_not_none :
  current_mode aoa_mode_ctl = MODE_AOA ∧
  (switch_mode (-19) MODE_ACM aoa_mode_ctl).1 = -19 ∧
  transport (switch_mode (-19) MODE_ACM aoa_mode_ctl).2
  = [usb_composite_probe gs_bind_aoa; usb_composite_unregister;
     gserial_cleanup; usb_composite_probe gs_bind_acm] ∧
  current_mode (switch_mode (-19) MODE_ACM aoa_mode_ctl).2 = MODE_AOA ∧
  current_mode (switch_mode (-19) MODE_ACM aoa_mode_ctl).2 ≠ MODE_NONE ∧
  switch_mode 0 MODE_AOA (switch_mode (-19) MODE_ACM aoa_mode_ctl).2
  = (0, (switch_mode (-19) MODE_ACM aoa_mode_ctl).2).
Proof. by vm_compute. Qed.

Lemma switch_mode_probe_failure_witness :
  (switch_mode (-19) MODE_ACM aoa_mode_ctl).1 = -19 ∧
  current_mode (switch_mode (-19) MODE_ACM aoa_mode_ctl).2
  = current_mode aoa_mode_ctl ∧
  transport (switch_mode (-19) MODE_ACM aoa_mode_ctl).2
  = transport aoa_mode_ctl
    ++ (if decide (current_mode aoa_mode_ctl ≠ MODE_NONE)
        then [usb_composite_unregister; gserial_cleanup] else [])
    ++ [usb_composite_probe
          (if decide (MODE_ACM = MODE_ACM) then gs_bind_acm else gs_bind_aoa)].
Proof.
  apply (switch_mode_probe_failure (-19) MODE_ACM aoa_mode_ctl);
    by vm_compute.
Defined.

Lemma second_open_is_busy_witness :
  aoa_open 0 (aoa_open 0 demo_state).2 = (- EBUSY, (aoa_open 0 demo_state).2).
Proof.
  apply (second_open_is_busy 0 (aoa_open 0 demo_state).2). by vm_compute.
Defined.

Lemma read_wrong_length_witness :
  aoa_read false 0 1 4 demo_queue = Some (Returned (- EINVAL) None demo_queue).
Proof. apply (read_wrong_length false 0 1 4 demo_queue). by vm_compute. Defined.

Lemma demo_queue_read_inv : queue_inv demo_queue_read demo_log [].
Proof.
  destruct (read_n_unread demo_queue demo_log demo_log 1 demo_queue_inv)
    as (q' & Hq & Hinv); [done|].
  unfold demo_queue_read. change (length demo_log) with 2%nat in Hq.
  by rewrite Hq.
Qed.

Lemma connected_push_compacts_witness :
  ∃ q', aoa_event_add 48 junk0 AOA_EVENT_CONNECTED_ACM demo_queue = Some q' ∧
    first_aoa_event_node q' = 48 ∧
    last_aoa_event_node q' = 48 ∧
    next_aoa_event_node q' = 48 ∧
    (48 ∉ demo_log.*1) ∧
    queue_inv q'
      [(48, mk_payload AOA_EVENT_CONNECTED_ACM (node_str_type junk0) None)]
      [(48, mk_payload AOA_EVENT_CONNECTED_ACM (node_str_type junk0) None)] ∧
    (∃ q'', read_n 1 1 q' = Some ([TypeOnly AOA_EVENT_CONNECTED_ACM], q'') ∧
            next_aoa_event_node q'' = NULL) ∧
    (∃ q'', read_n 1 1 (rewind q')
            = Some ([TypeOnly AOA_EVENT_CONNECTED_ACM], q'') ∧
            next_aoa_event_node q'' = NULL).
Proof.
  apply (connected_push_compacts demo_queue demo_log demo_log 48 junk0 1
           demo_queue_inv); by vm_compute.
Defined.

Lemma reads_are_fifo_witness :
  ∃ q1 q2, do_pushes more_pushes demo_queue = Some q1 ∧
    read_n (length demo_log + length more_pushes) 1 q1
    = Some ((view <$> demo_log.*2) ++ (view <$> (pushed <$> more_pushes)), q2) ∧
    next_aoa_event_node q2 = NULL.
Proof.
  apply (reads_are_fifo demo_queue demo_log demo_log more_pushes 1
           demo_queue_inv).
  - by vm_compute.
  - apply (bool_decide_unpack _). by vm_compute.
  - repeat constructor; by vm_compute.
  - repeat constructor; by vm_compute.
  - repeat constructor; by vm_compute.
Defined.

Lemma stored_string_bounded_witness :
  ∃ q' n s, aoa_str_received_event_add true 48 junk0 AOA_STRING_URI
              long_buf 300 demo_queue = Some q' ∧
    mem q' !! 48 = Some n ∧
    node_type n = AOA_EVENT_STRING_RECEIVED ∧
    node_str_type n = AOA_STRING_URI ∧
    node_str n = Some s ∧
    s = take (Z.to_nat (Z.min (300 + 1) AOA_MAX_STR_SIZE - 1)) long_buf
        ++ [x00] ∧
    s = (if decide (300 + 1 ≤ AOA_MAX_STR_SIZE) then long_buf ++ [x00]
         else take 255 long_buf ++ [x00]) ∧
    Z.of_nat (length s) = Z.min (300 + 1) AOA_MAX_STR_SIZE ∧
    Z.of_nat (length s) ≤ AOA_MAX_STR_SIZE.
Proof.
  apply (stored_string_bounded demo_queue demo_log demo_log 48 junk0
           AOA_STRING_URI long_buf 300 demo_queue_inv); by vm_compute.
Defined.

Lemma open_replays_log_witness :
  queue (aoa_open 0 demo_state).2 = rewind (queue demo_state) ∧
  next_aoa_event_node (queue (aoa_open 0 demo_state).2)
  = first_aoa_event_node (queue demo_state) ∧
  ∃ q', read_n (length demo_log) 1 (queue (aoa_open 0 demo_state).2)
        = Some (view <$> demo_log.*2, q') ∧
        next_aoa_event_node q' = NULL.
Proof.
  apply (open_replays_log 0 demo_state demo_log [] 1 demo_queue_read_inv);
    by vm_compute.
Defined.

Lemma set_connected_edge_triggered_witness :
  ∃ st', aoa_set_connected_acm 48 junk0 true demo_state = Some st' ∧
    aoa_connected_acm st' = true ∧
    aoa_ctrl_open st' = aoa_ctrl_open demo_state ∧
    modes st' = modes demo_state ∧
    (if decide (aoa_connected_acm demo_state = true) then st' = demo_state
     else if decide (48 = NULL) then queue st' = queue demo_state
     else
       let e := mk_payload AOA_EVENT_CONNECTED_ACM (node_str_type junk0) None in
       queue_inv (queue st') ([] ++ [(48, e)]) ([] ++ [(48, e)])) ∧
    ∀ new' junk', aoa_set_connected_acm new' junk' true st' = Some st'.
Proof.
  apply (set_connected_edge_triggered demo_state demo_log [] 48 junk0 true
           demo_queue_read_inv).
  right. by vm_compute.
Defined.

(** C10 as the spec words it fails when [kmalloc] fails: the flag of
    [demo_state] is false, the report is true, so the state changes; the
    flag is set, and the queue is what it was, with no event in it for the
    change. *)
Lemma set_connected_change_without_event :
  aoa_connected_acm demo_state = false ∧
  aoa_set_connected_acm NULL junk0 true demo_state
  = Some (mk_state true (aoa_ctrl_open demo_state) (modes demo_state)
            (queue demo_state)) ∧
  aoa_poll (queue demo_state) = 0 ∧
  aoa_read false 0 1 sizeof_aoa_event (queue demo_state) = Some Sleeping.
Proof. by vm_compute. Qed.

(** The example of the spec: "Pixel" as model string, then
    [AOA_EVENT_CONNECTED_ACM], then [AOA_EVENT_START_REQUESTED], pushed
    before the device is opened.  The session opened afterwards reads the
    connection and the start request, and then there is nothing left; the
    string went with the compaction. *)
Example replay_after_compaction :
  ∃ q q', do_pushes example_pushes empty_queue = Some q ∧
    (aoa_open 0 (mk_state false false initial_mode_ctl q)).1 = 0 ∧
    read_n 2 1 (queue (aoa_open 0 (mk_state false false initial_mode_ctl q)).2)
    = Some ([TypeOnly AOA_EVENT_CONNECTED_ACM;
             TypeOnly AOA_EVENT_START_REQUESTED], q') ∧
    aoa_poll q' = 0 ∧
    aoa_read false 0 1 sizeof_aoa_event q' = Some Sleeping.
Proof. vm_compute. eexists _, _. repeat split; reflexivity. Qed.

(** Without compaction the string is read back as it was stored. *)
Example read_back_string :
  ∃ q', read_n 2 1 demo_queue
        = Some ([WithString AOA_EVENT_STRING_RECEIVED AOA_STRING_MODEL
                   (pixel ++ [x00]);
                 TypeOnly AOA_EVENT_DISCONNECTED_ACM], q').
Proof. vm_compute. eexists. reflexivity. Qed.

(** * More of the mode controller *)

Section mode_extras.
Implicit Types (s : mode_ctl) (st : state).

(** X1. A switch to another mode that meets no failing probe returns 0 and
    records the target.  The calls it makes are: unregister and clean up
    if a personality was current, then one probe with the bind callback of
    the target, or no probe when the target is [MODE_NONE]. *)
Theorem switch_mode_success probe_ret target s :
  current_mode s ≠ target → target = MODE_NONE ∨ probe_ret = 0 →
  (switch_mode probe_ret target s).1 = 0 ∧
  current_mode (switch_mode probe_ret target s).2 = target ∧
  transport (switch_mode probe_ret target s).2
  = transport s
    ++ (if decide (current_mode s ≠ MODE_NONE)
        then [usb_composite_unregister; gserial_cleanup] else [])
    ++ match target with
       | MODE_NONE => []
       | MODE_ACM => [usb_composite_probe gs_bind_acm]
       | MODE_AOA => [usb_composite_probe gs_bind_aoa]
       end.
Proof.
  intros Hcur Hok. unfold switch_mode. rewrite decide_False by done.
  destruct target.
  - destruct (decide (current_mode s ≠ MODE_NONE)); simpl;
      rewrite ?app_nil_r, <-?app_assoc; done.
  - destruct Hok as [?| ->]; [done|]. simpl.
    destruct (decide (current_mode s ≠ MODE_NONE)); simpl;
      rewrite <-?app_assoc; done.
  - destruct Hok as [?| ->]; [done|]. simpl.
    destruct (decide (current_mode s ≠ MODE_NONE)); simpl;
      rewrite <-?app_assoc; done.
Qed.

Lemma do_mode_op_descriptors o s :
  descriptors_match s → switch_registers o →
  descriptors_match (do_mode_op o s).2.
Proof.
  intros Hm Hok. destruct o as [t r|r]; simpl in *.
  - unfold switch_mode. case_decide; [done|].
    destruct t; [done| |]; (destruct Hok as [?| ->]; [done|]);
      by vm_compute.
  - unfold reset_mode. case_decide; [done|].
    unfold descriptors_match in *. simpl. done.
Qed.

(** X2. As long as no switch meets a failing probe, the descriptor fields
    are those of the current mode: label, configuration value, device
    class, vendor and product id.  [reset_mode] keeps this whatever its
    probe returns. *)
Theorem descriptors_follow_mode os s :
  descriptors_match s → Forall switch_registers os →
  descriptors_match (do_mode_ops os s).
Proof.
  intros Hm Hok. revert s Hm.
  induction Hok as [|o os Ho _ IH]; intros s Hm; [done|].
  apply IH. by apply do_mode_op_descriptors.
Qed.
End mode_extras.

(** * More of the control device *)

Section control_extras.
Implicit Types (s : mode_ctl) (st : state).

(** X3. [aoa_open] on a closed device, when ACM is already current or the
    probe succeeds, returns 0, marks the device open, leaves ACM current
    and puts the cursor on the first node; the connection flag is not
    touched. *)
Theorem open_success probe_ret st :
  aoa_ctrl_open st = false →
  current_mode (modes st) = MODE_ACM ∨ probe_ret = 0 →
  (aoa_open probe_ret st).1 = 0 ∧
  aoa_ctrl_open (aoa_open probe_ret st).2 = true ∧
  current_mode (modes (aoa_open probe_ret st).2) = MODE_ACM ∧
  queue (aoa_open probe_ret st).2 = rewind (queue st) ∧
  aoa_connected_acm (aoa_open probe_ret st).2 = aoa_connected_acm st.
Proof.
  intros Hclosed Hok. unfold aoa_open, atomic_xchg. rewrite Hclosed. simpl.
  unfold switch_mode.
  destruct (decide (current_mode (modes st) = MODE_ACM)) as [Hacm|Hacm].
  { simpl. done. }
  destruct Hok as [?| ->]; [done|]. simpl. done.
Qed.

(** X4. [aoa_open] on a closed device whose switch to ACM fails in the
    probe returns the probe's error and leaves the device closed; the
    cursor is not moved and the recorded mode is as before. *)
Theorem open_failure_rolls_back probe_ret st :
  aoa_ctrl_open st = false →
  current_mode (modes st) ≠ MODE_ACM → probe_ret ≠ 0 →
  (aoa_open probe_ret st).1 = probe_ret ∧
  aoa_ctrl_open (aoa_open probe_ret st).2 = false ∧
  queue (aoa_open probe_ret st).2 = queue st ∧
  current_mode (modes (aoa_open probe_ret st).2) = current_mode (modes st) ∧
  aoa_connected_acm (aoa_open probe_ret st).2 = aoa_connected_acm st.
Proof.
  intros Hclosed Hacm Hret. unfold aoa_open, atomic_xchg. rewrite Hclosed.
  simpl. unfold switch_mode. rewrite decide_False by done.
  rewrite (decide_True (P := probe_ret ≠ 0)) by done. simpl.
  rewrite (decide_False (P := probe_ret = 0)) by done.
  by destruct (decide (current_mode (modes st) ≠ MODE_NONE)).
Qed.

Lemma open_from_none probe_ret st :
  aoa_ctrl_open st = false → current_mode (modes st) = MODE_NONE →
  (aoa_open probe_ret st).1 = probe_ret.
Proof.
  intros Hclosed Hnone. unfold aoa_open, atomic_xchg. rewrite Hclosed.
  simpl. unfold switch_mode. rewrite Hnone. simpl.
  destruct (decide (probe_ret ≠ 0)) as [Hr|Hr]; simpl.
  - by rewrite (decide_False (P := probe_ret = 0)).
  - destruct (decide (probe_ret = 0)); done.
Qed.

(** X5. [aoa_release] returns 0, marks the device closed and leaves
    [MODE_NONE] current, unregistering and cleaning up exactly when a
    personality was current; the queue and the connection flag are not
    touched.  The next [aoa_open] is not refused: it returns what its
    probe returns. *)
Theorem release_unconfigures st :
  (aoa_release st).1 = 0 ∧
  aoa_ctrl_open (aoa_release st).2 = false ∧
  current_mode (modes (aoa_release st).2) = MODE_NONE ∧
  transport (modes (aoa_release st).2)
  = transport (modes st)
    ++ (if decide (current_mode (modes st) ≠ MODE_NONE)
        then [usb_composite_unregister; gserial_cleanup] else []) ∧
  queue (aoa_release st).2 = queue st ∧
  aoa_connected_acm (aoa_release st).2 = aoa_connected_acm st ∧
  ∀ probe_ret, (aoa_open probe_ret (aoa_release st).2).1 = probe_ret.
Proof.
  assert (H : (aoa_release st).1 = 0 ∧
    aoa_ctrl_open (aoa_release st).2 = false ∧
    current_mode (modes (aoa_release st).2) = MODE_NONE ∧
    transport (modes (aoa_release st).2)
    = transport (modes st)
      ++ (if decide (current_mode (modes st) ≠ MODE_NONE)
          then [usb_composite_unregister; gserial_cleanup] else []) ∧
    queue (aoa_release st).2 = queue st ∧
    aoa_connected_acm (aoa_release st).2 = aoa_connected_acm st).
  { unfold aoa_release, switch_mode.
    destruct (decide (current_mode (modes st) = MODE_NONE)) as [Hn|Hn].
    - simpl. rewrite decide_False by (by intros ?). by rewrite app_nil_r.
    - simpl. repeat case_decide; try done. simpl. by rewrite <-app_assoc. }
  destruct H as (H1 & H2 & H3 & H4 & H5 & H6).
  repeat (split; [done|]). intros p. by apply open_from_none.
Qed.

(** X6. [aoa_ioctl] never touches the queue, the open flag or the
    connection flag.  The three request codes are told apart: each hands
    the mode controller to its own function, [switch_mode] to AOA,
    [switch_mode] to ACM or [reset_mode], and returns what that returns.
    Any other code is answered with [-ENOTTY] and changes nothing. *)
Theorem ioctl_frame probe_ret code st :
  queue (aoa_ioctl probe_ret code st).2 = queue st ∧
  aoa_ctrl_open (aoa_ioctl probe_ret code st).2 = aoa_ctrl_open st ∧
  aoa_connected_acm (aoa_ioctl probe_ret code st).2 = aoa_connected_acm st ∧
  ((aoa_ioctl probe_ret AOA_IOCTL_SWITCH_TO_AOA st).1,
   modes (aoa_ioctl probe_ret AOA_IOCTL_SWITCH_TO_AOA st).2)
  = switch_mode probe_ret MODE_AOA (modes st) ∧
  ((aoa_ioctl probe_ret AOA_IOCTL_SWITCH_TO_ACM st).1,
   modes (aoa_ioctl probe_ret AOA_IOCTL_SWITCH_TO_ACM st).2)
  = switch_mode probe_ret MODE_ACM (modes st) ∧
  ((aoa_ioctl probe_ret AOA_IOCTL_RESET st).1,
   modes (aoa_ioctl probe_ret AOA_IOCTL_RESET st).2)
  = reset_mode probe_ret (modes st) ∧
  (code = AOA_IOCTL_SWITCH_TO_AOA ∨ code = AOA_IOCTL_SWITCH_TO_ACM ∨
   code = AOA_IOCTL_RESET ∨
   aoa_ioctl probe_ret code st = (- ENOTTY, st)).
Proof.
  split; [|split; [|split; [|split; [|split; [|split]]]]].
  - unfold aoa_ioctl. by repeat case_decide.
  - unfold aoa_ioctl. by repeat case_decide.
  - unfold aoa_ioctl. by repeat case_decide.
  - unfold aoa_ioctl. simpl. by destruct (switch_mode _ _ _).
  - unfold aoa_ioctl. simpl. by destruct (switch_mode _ _ _).
  - unfold aoa_ioctl. simpl. by destruct (reset_mode _ _).
  - unfold aoa_ioctl. repeat case_decide; auto.
Qed.

Lemma ioctl_open_flag probe_ret code st :
  aoa_ctrl_open (aoa_ioctl probe_ret code st).2 = aoa_ctrl_open st.
Proof. unfold aoa_ioctl. by repeat case_decide. Qed.

Lemma step_closed_unconfigured r st st' :
  (needs_open r = true → aoa_ctrl_open st = true) →
  (aoa_ctrl_open st = false → current_mode (modes st) = MODE_NONE) →
  step r st = Some st' →
  aoa_ctrl_open st' = false → current_mode (modes st') = MODE_NONE.
Proof.
  intros Hneed Hinv Hstep.
  destruct r; simpl in Hstep, Hneed.
  - unfold aoa_set_connected_acm, atomic_xchg in Hstep.
    case_decide; simpl in Hstep.
    + destruct (aoa_event_add _ _ _ _); simpl in Hstep; [|done].
      injection Hstep as <-. done.
    + injection Hstep as <-. done.
  - destruct (aoa_event_add _ _ _ _); simpl in Hstep; [|done].
    injection Hstep as <-. done.
  - destruct (aoa_str_received_event_add _ _ _ _ _ _ _); simpl in Hstep;
      [|done].
    injection Hstep as <-. done.
  - injection Hstep as <-. unfold aoa_open, atomic_xchg.
    destruct (aoa_ctrl_open st) eqn:Hopen; [done|].
    specialize (Hinv eq_refl). simpl. unfold switch_mode.
    rewrite Hinv. simpl.
    destruct (decide (probe_ret ≠ 0)); simpl; [by case_decide|].
    case_decide; simpl; done.
  - injection Hstep as <-. intros _.
    unfold aoa_release, switch_mode. case_decide; simpl; [done|].
    done.
  - injection Hstep as <-. specialize (Hneed eq_refl).
    rewrite ioctl_open_flag, Hneed. done.
  - destruct (aoa_read _ _ _ _ _) as [[]|]; simpl in Hstep; [| |done];
      injection Hstep as <-; done.
Qed.

(** X7. In every state the driver reaches when release, ioctl and read
    come only while the device is open, a closed device has [MODE_NONE]
    current: no personality is recorded between sessions. *)
Theorem closed_means_unconfigured st :
  session_reachable st →
  aoa_ctrl_open st = false → current_mode (modes st) = MODE_NONE.
Proof.
  induction 1 as [|st r st' _ IH Hneed Hstep]; [done|].
  by eapply step_closed_unconfigured.
Qed.
End control_extras.

(** * More of the event queue *)

Section queue_extras.
Implicit Types (q : event_queue) (es unread : list (Z * payload)).

(** X8. [aoa_poll] tells what a read with a proper buffer will do.  When it
    reports 0 the cursor is empty and the read waits, or returns [-EINTR]
    on a signal.  Otherwise it reports [POLLIN | POLLRDNORM], and the read
    hands out the first unread entry without waiting, signal or not. *)
Theorem poll_predicts_read q es unread signal buf :
  queue_inv q es unread → buf ≠ NULL →
  if decide (aoa_poll q = 0)
  then unread = [] ∧
       aoa_read signal 0 buf sizeof_aoa_event q
       = Some (if signal then Returned (- EINTR) None q else Sleeping)
  else aoa_poll q = Z.lor POLLIN POLLRDNORM ∧
       ∃ e rest q', unread = e :: rest ∧
         aoa_read signal 0 buf sizeof_aoa_event q
         = Some (Returned (view_size e.2) (Some (view e.2)) q') ∧
         queue_inv q' es rest.
Proof.
  intros Hinv Hbuf. unfold aoa_poll.
  destruct unread as [|[p e] rest].
  - rewrite (inv_next _ _ _ Hinv). simpl.
    split; [done|]. by eapply read_empty.
  - assert (Hp : next_aoa_event_node q ≠ NULL).
    { rewrite (inv_next _ _ _ Hinv). simpl. intros E.
      apply (suffix_nonnull _ _ (inv_unread _ _ _ Hinv) (inv_nonnull _ _ _ Hinv)).
      rewrite <-E. simpl. by apply elem_of_cons; left. }
    rewrite (decide_False (P := next_aoa_event_node q = NULL)) by done.
    rewrite decide_False by done. split; [done|].
    destruct (read_step q es p e rest signal buf Hinv Hbuf) as (q' & ? & ? & _).
    by exists (p, e), rest, q'.
Qed.


(** X10. A read whose copy to user space fails returns [-EFAULT] and does
    not use up the event: the queue is as it was, only the bytes of the
    entry before the fault are in the buffer, and the same read with a
    good copy hands out that very entry. *)
Theorem failed_copy_keeps_event q es e rest signal not_copied buf :
  queue_inv q es (e :: rest) → buf ≠ NULL → not_copied ≠ 0 →
  aoa_read signal not_copied buf sizeof_aoa_event q
  = Some (Returned (- EFAULT)
            (Some (Partial (view_size e.2 - not_copied) (view e.2))) q) ∧
  ∃ q', aoa_read signal 0 buf sizeof_aoa_event q
        = Some (Returned (view_size e.2) (Some (view e.2)) q') ∧
        queue_inv q' es rest.
Proof.
  intros Hinv Hbuf Hnc. destruct e as [p e]. split.
  - rewrite (read_at_cursor q es p e rest) by done.
    by rewrite decide_True.
  - destruct (read_step q es p e rest signal buf Hinv Hbuf) as (q' & ? & ? & _).
    by exists q'.
Qed.

(** X11. A producer whose allocation fails drops its event and leaves the
    queue as it was: [aoa_event_add] without a node, and
    [aoa_str_received_event_add] without the string buffer or without the
    node. *)
Theorem failed_allocation_drops_event q new junk type stype strbuf len :
  0 ≤ len ≤ Z.of_nat (length strbuf) → len < SIZE_MAX →
  aoa_event_add NULL junk type q = Some q ∧
  aoa_str_received_event_add false new junk stype strbuf len q = Some q ∧
  aoa_str_received_event_add true NULL junk stype strbuf len q = Some q.
Proof.
  intros Hlen Hmax. split; [apply event_add_alloc_failure|].
  split; [done|].
  by rewrite str_received_unfold, node_add_alloc_failure.
Qed.

(** X12. A change of the connection state whose event could not be
    allocated still flips the flag, so the event is lost for good: the
    same report made again, with memory to spare, adds nothing. *)
Theorem dropped_report_is_lost junk b st :
  aoa_connected_acm st ≠ b →
  aoa_set_connected_acm NULL junk b st
  = Some (mk_state b (aoa_ctrl_open st) (modes st) (queue st)) ∧
  ∀ new junk',
    aoa_set_connected_acm new junk' b
      (mk_state b (aoa_ctrl_open st) (modes st) (queue st))
    = Some (mk_state b (aoa_ctrl_open st) (modes st) (queue st)).
Proof.
  intros Hneq. split.
  - unfold aoa_set_connected_acm, atomic_xchg.
    rewrite decide_True by done.
    by rewrite event_add_alloc_failure.
  - intros new junk'. unfold aoa_set_connected_acm, atomic_xchg. simpl.
    by rewrite decide_False by (by intros ?).
Qed.

Lemma strlen_before_nul (s : list byte) :
  strlen (s ++ [x00]) = Some (length (before_nul s)).
Proof.
  induction s as [|b s IH]; simpl; [done|].
  destruct (Byte.eqb b x00); [done|]. by rewrite IH.
Qed.

(** What a read makes of a stored string: the bytes before its first NUL
    and the terminator. *)
Lemma c_string_terminated (s : list byte) :
  c_string (s ++ [x00]) = before_nul s ++ [x00].
Proof.
  unfold c_string. rewrite strlen_before_nul.
  induction s as [|b s IH]; simpl; [done|].
  destruct (Byte.eqb b x00) eqn:E; simpl.
  - apply Byte.byte_dec_bl in E. by subst.
  - f_equal. apply IH.
Qed.

Lemma before_nul_clean (s : list byte) :
  Forall (λ b, b ≠ x00) s → before_nul s = s.
Proof.
  induction 1 as [|b s Hb _ IH]; simpl; [done|].
  destruct (Byte.eqb b x00) eqn:E.
  - apply Byte.byte_dec_bl in E. done.
  - by rewrite IH.
Qed.

(** A string event pushed on a queue with nothing unread, and the read
    that follows. *)
Lemma push_string_then_read q es new junk type strbuf len signal buf :
  queue_inv q es [] → new ≠ NULL → mem q !! new = None →
  0 ≤ len ≤ Z.of_nat (length strbuf) → len < SIZE_MAX → buf ≠ NULL →
  ∃ q1 q2,
    aoa_str_received_event_add true new junk type strbuf len q = Some q1 ∧
    aoa_read signal 0 buf sizeof_aoa_event q1
    = Some (Returned
              (sizeof_enum + sizeof_enum
               + Z.of_nat (length (c_string (stored_str strbuf len))))
              (Some (WithString AOA_EVENT_STRING_RECEIVED type
                       (c_string (stored_str strbuf len)))) q2) ∧
    next_aoa_event_node q2 = NULL.
Proof.
  intros Hinv Hnew Hfresh Hlen Hmax Hbuf.
  destruct (str_received_append q es [] new junk type strbuf len)
    as (q1 & Hq1 & Hinv1 & _); try done.
  simpl in Hinv1.
  destruct (read_step q1 _ _ _ [] signal buf Hinv1 Hbuf)
    as (q2 & Hq2 & Hinv2 & _).
  exists q1, q2. split; [done|]. split; [done|].
  by rewrite (inv_next _ _ _ Hinv2).
Qed.

(** X13. What comes back of a string: pushed on a queue with nothing
    unread, then read, it is the first [min(len, 255)] bytes of the buffer
    cut before their first NUL, followed by one NUL, and the read returns 8
    plus that many bytes. *)
Theorem string_read_back q es new junk type strbuf len signal buf :
  queue_inv q es [] → new ≠ NULL → mem q !! new = None →
  0 ≤ len ≤ Z.of_nat (length strbuf) → len < SIZE_MAX → buf ≠ NULL →
  ∃ q1 q2,
    aoa_str_received_event_add true new junk type strbuf len q = Some q1 ∧
    aoa_read signal 0 buf sizeof_aoa_event q1
    = Some (Returned
              (8 + Z.of_nat
                     (length (before_nul
                                (take (Z.to_nat (Z.min len 255)) strbuf)
                              ++ [x00])))
              (Some (WithString AOA_EVENT_STRING_RECEIVED type
                       (before_nul (take (Z.to_nat (Z.min len 255)) strbuf)
                        ++ [x00]))) q2) ∧
    next_aoa_event_node q2 = NULL.
Proof.
  intros Hinv Hnew Hfresh Hlen Hmax Hbuf.
  destruct (push_string_then_read q es new junk type strbuf len signal buf)
    as (q1 & q2 & Hq1 & Hq2 & Hnext); try done.
  exists q1, q2. split; [done|]. split; [|done].
  rewrite Hq2. unfold stored_str. rewrite c_string_terminated.
  replace (Z.to_nat (Z.min (len + 1) AOA_MAX_STR_SIZE - 1))
    with (Z.to_nat (Z.min len 255)) by (unfold AOA_MAX_STR_SIZE; lia).
  done.
Qed.

(** X14. Round trip of a string: a buffer of at most 255 bytes, none of
    them NUL, pushed on a queue with nothing unread and then read, comes
    back whole with its type and one NUL behind it, and the read returns
    its length plus 9. *)
Theorem string_round_trip q es new junk type strbuf signal buf :
  queue_inv q es [] → new ≠ NULL → mem q !! new = None →
  Forall (λ b, b ≠ x00) strbuf → (length strbuf ≤ 255)%nat → buf ≠ NULL →
  ∃ q1 q2,
    aoa_str_received_event_add true new junk type strbuf
      (Z.of_nat (length strbuf)) q = Some q1 ∧
    aoa_read signal 0 buf sizeof_aoa_event q1
    = Some (Returned (Z.of_nat (length strbuf) + 9)
              (Some (WithString AOA_EVENT_STRING_RECEIVED type
                       (strbuf ++ [x00]))) q2) ∧
    next_aoa_event_node q2 = NULL.
Proof.
  intros Hinv Hnew Hfresh Hclean Hlen Hbuf.
  assert (HM : 255 < SIZE_MAX) by (by vm_compute).
  destruct (push_string_then_read q es new junk type strbuf
              (Z.of_nat (length strbuf)) signal buf)
    as (q1 & q2 & Hq1 & Hq2 & Hnext); try done; [lia..|].
  exists q1, q2. split; [done|]. split; [|done].
  rewrite Hq2. unfold stored_str. rewrite c_string_terminated.
  rewrite take_ge by (unfold AOA_MAX_STR_SIZE; lia).
  rewrite before_nul_clean by done.
  rewrite length_app. simpl. unfold sizeof_enum.
  do 2 f_equal. lia.
Qed.
End queue_extras.

(** * Runs of pushes, and what becomes of the nodes *)

Section compaction_extras.
Implicit Types (q : event_queue) (es unread : list (Z * payload)).

Lemma is_connectedb_spec p : is_connectedb p = true ↔ is_connected p.
Proof. destruct p as [a j []|]; simpl; split; done. Qed.

Lemma do_push_survive q es unread p :
  queue_inv q es unread → push_addr p ≠ NULL →
  mem q !! push_addr p = None → well_sized p →
  ∃ q', do_push p q = Some q' ∧
        queue_inv q' (survive es p) (survive unread p).
Proof.
  intros Hinv Hnull Hfresh Hws. unfold survive.
  destruct (is_connectedb p) eqn:Hc.
  - destruct p as [a j []|]; try done. simpl in *.
    destruct (event_add_connected q es unread a j) as (q' & ? & ? & _);
      eauto.
  - destruct (do_push_append q es unread p) as (q' & ? & ? & _); eauto.
    intros Hcon%is_connectedb_spec. congruence.
Qed.

Lemma do_pushes_survive ps : ∀ q es unread,
  queue_inv q es unread → pushes_granted ps q →
  ∃ q', do_pushes ps q = Some q' ∧
        queue_inv q' (log_after es ps) (log_after unread ps).
Proof.
  induction ps as [|p ps IH]; intros q es unread Hinv Hok; simpl.
  - by exists q.
  - destruct Hok as (Hnull & Hfresh & Hws & Hrest).
    destruct (do_push_survive q es unread p) as (q1 & Hq1 & Hinv1);
      try done.
    rewrite Hq1. simpl. apply IH; [done|]. by apply Hrest.
Qed.

Lemma log_after_app l ps1 ps2 :
  log_after l (ps1 ++ ps2) = log_after (log_after l ps1) ps2.
Proof. apply foldl_app. Qed.

Lemma log_after_no_connection ps : ∀ l,
  Forall (λ p, is_connectedb p = false) ps →
  log_after l ps = l ++ (entry_of <$> ps).
Proof.
  induction ps as [|p ps IH]; intros l Hps; simpl.
  - by rewrite app_nil_r.
  - apply Forall_cons in Hps as [Hp Hps].
    rewrite IH by done. unfold survive. rewrite Hp.
    by rewrite <-app_assoc.
Qed.

(** X15. Of a run of pushes, the log keeps what was pushed from the last
    connection event on.  With every allocation granted the pushes all
    succeed, whatever was in the queue before; the log is then the last
    [AOA_EVENT_CONNECTED_ACM] and the pushes after it, all unread, and the
    reads hand them out in the order they were pushed. *)
Theorem reads_after_last_connection q es unread before c after buf :
  queue_inv q es unread →
  pushes_granted (before ++ c :: after) q →
  is_connectedb c = true →
  Forall (λ p, is_connectedb p = false) after →
  buf ≠ NULL →
  ∃ q1 q2, do_pushes (before ++ c :: after) q = Some q1 ∧
    queue_inv q1 (entry_of <$> c :: after) (entry_of <$> c :: after) ∧
    read_n (S (length after)) buf q1
    = Some (view <$> (pushed <$> c :: after), q2) ∧
    next_aoa_event_node q2 = NULL.
Proof.
  intros Hinv Hok Hc Hafter Hbuf.
  destruct (do_pushes_survive _ q es unread Hinv Hok) as (q1 & Hq1 & Hinv1).
  assert (Hlog : ∀ l, log_after l (before ++ c :: after)
                      = entry_of <$> c :: after).
  { intros l. rewrite log_after_app. simpl.
    rewrite log_after_no_connection by done.
    unfold survive. by rewrite Hc. }
  rewrite !Hlog in Hinv1.
  destruct (read_n_unread _ _ _ buf Hinv1 Hbuf) as (q2 & Hr & Hinv2).
  exists q1, q2. split; [done|]. split; [done|]. split.
  - rewrite length_fmap in Hr.
    change (length (c :: after)) with (S (length after)) in Hr.
    rewrite Hr. do 2 f_equal. by rewrite <-!list_fmap_compose.
  - by rewrite (inv_next _ _ _ Hinv2).
Qed.

(** X16. What a connection event does to the nodes of a list that is not
    empty: every node but the first is freed; the first is not, it stays
    allocated and linked to itself, while head, tail and cursor go to the
    new node. *)
Theorem connected_push_frees_all_but_first q f rest unread new junk :
  queue_inv q (f :: rest) unread → new ≠ NULL → mem q !! new = None →
  ∃ q', aoa_event_add new junk AOA_EVENT_CONNECTED_ACM q = Some q' ∧
    (∀ p, p ∈ rest.*1 → mem q' !! p = None) ∧
    mem q' !! f.1 = Some (node_of f.2 f.1 f.1) ∧
    f.1 ≠ new ∧
    first_aoa_event_node q' = new ∧
    last_aoa_event_node q' = new ∧
    next_aoa_event_node q' = new.
Proof.
  intros Hinv Hnew Hfresh.
  destruct (event_add_connected q (f :: rest) unread new junk Hinv Hnew Hfresh)
    as (q' & Hq & Hinv' & Hf & Hrest).
  exists q'. split; [done|]. split; [done|]. split; [done|]. split.
  - intros E. pose proof (queue_inv_fresh _ _ _ _ Hinv Hfresh) as Hnot.
    apply Hnot. rewrite <-E. simpl. by apply elem_of_cons; left.
  - split; [by rewrite (inv_first _ _ _ Hinv')|].
    split; [by rewrite (inv_last _ _ _ Hinv')|].
    by rewrite (inv_next _ _ _ Hinv').
Qed.

(** X17. The driver never follows a pointer to memory it does not own: in
    every state reached from the initial one, whatever entry point is
    called next, as long as [kmalloc] fails or returns unused memory and
    strings come in buffers that hold them, the call runs to its end, and
    the list it leaves is again a well-formed ring with the cursor on it. *)
Theorem driver_never_faults st r :
  reachable st → allowed r st →
  ∃ st', step r st = Some st' ∧ reachable st' ∧
         ∃ es unread, queue_inv (queue st') es unread.
Proof.
  intros Hreach Hok.
  destruct (reachable_queue_inv st Hreach) as (es & unread & Hinv).
  destruct (step_inv r st es unread Hinv Hok)
    as (st' & es' & unread' & Hstep & Hinv').
  exists st'. split; [done|]. split; [by eapply reachable_step|]. eauto.
Qed.
End compaction_extras.

(** * The bind callback *)

Section bind_extras.
Import Bind.

(** X18. [gs_bind] returns the status of the first step that fails, of the
    serial setup, the three string ids and [usb_add_config] in this order,
    and 0 if none does; so it never returns a positive value.
    [gserial_cleanup] is called exactly when the setup succeeded and a
    later step failed, and then it is the last call. *)
Theorem gs_bind_status_and_cleanup env in_aoa_mode d :
  (gs_bind env in_aoa_mode d).1
  = first_negative [setup_status env; string_id1 env; string_id2 env;
                    string_id3 env; add_config_status env] ∧
  (gs_bind env in_aoa_mode d).1 ≤ 0 ∧
  ∃ made,
    calls (gs_bind env in_aoa_mode d).2
    = calls d ++ made
      ++ (if decide (0 ≤ setup_status env ∧ (gs_bind env in_aoa_mode d).1 < 0)
          then [gserial_cleanup] else []) ∧
    gserial_cleanup ∉ made.
Proof.
  unfold gs_bind, fail, first_negative.
  repeat (match goal with
          | |- context [decide (?x < 0)] => destruct (decide (x < 0))
          end; simpl);
    (split; [done|]); (split; [lia|]);
    destruct in_aoa_mode; simpl; rewrite <-?app_assoc; simpl;
    match goal with
    | |- ∃ made, _ ++ ?l = _ ∧ _ =>
        first [ exists (removelast l); split;
                [rewrite decide_True by (simpl; lia); reflexivity|]
              | exists l; split;
                [rewrite decide_False by (simpl; lia);
                 by rewrite app_nil_r|] ]
    end;
    simpl; intros Hin;
    repeat (apply elem_of_cons in Hin as [?|Hin]; [done|]);
    by apply elem_of_nil in Hin.
Qed.
End bind_extras.

Section bind_success.
Import Bind.

Lemma lor_version g :
  0 ≤ g < 256 → Z.lor GS_VERSION_NUM g = GS_VERSION_NUM + g.
Proof.
  intros Hg.
  assert (Hall : Forall (λ g, Z.lor GS_VERSION_NUM g = GS_VERSION_NUM + g)
                        (seqZ 0 256)).
  { apply (bool_decide_unpack _). by vm_compute. }
  rewrite Forall_forall in Hall. apply Hall. apply elem_of_seqZ. lia.
Qed.

Lemma substring_length n : ∀ s, (String.length (String.substring 0 n s) ≤ n)%nat.
Proof.
  induction n as [|n IH]; intros [|c s]; simpl; try lia.
  specialize (IH s). lia.
Qed.

(** X19. When [gs_bind] returns 0 and the string ids and the controller
    number fit in a byte, the descriptor indices are the three ids in the
    order they were handed out, each equal to the id in the string table;
    [bcdDevice] is the version 0x2400 with the controller number in its low
    byte, or 0x99 there for a controller that is not recognised; the
    manufacturer string has at most 49 characters; and the last call made
    was [usb_add_config] with the config binder of the mode. *)
Theorem gs_bind_success_descriptors env in_aoa_mode d :
  (gs_bind env in_aoa_mode d).1 = 0 →
  string_id1 env < 256 → string_id2 env < 256 → string_id3 env < 256 →
  controller_number env < 256 →
  iManufacturer (gs_bind env in_aoa_mode d).2 = string_id1 env ∧
  strings_dev_manufacturer_id (gs_bind env in_aoa_mode d).2 = string_id1 env ∧
  iProduct (gs_bind env in_aoa_mode d).2 = string_id2 env ∧
  strings_dev_product_id (gs_bind env in_aoa_mode d).2 = string_id2 env ∧
  iConfiguration (gs_bind env in_aoa_mode d).2 = string_id3 env ∧
  strings_dev_description_id (gs_bind env in_aoa_mode d).2 = string_id3 env ∧
  bcdDevice (gs_bind env in_aoa_mode d).2
  = GS_VERSION_NUM
    + (if decide (0 ≤ controller_number env) then controller_number env
       else 0x99) ∧
  (String.length (manufacturer (gs_bind env in_aoa_mode d).2) ≤ 49)%nat ∧
  last (calls (gs_bind env in_aoa_mode d).2)
  = Some (usb_add_config (if in_aoa_mode then gser_bind_config
                          else acm_bind_config)).
Proof.
  unfold gs_bind, fail.
  repeat (match goal with
          | |- context [decide (?x < 0)] => destruct (decide (x < 0))
          end; simpl); try (intros ?; lia).
  intros _ H1 H2 H3 Hg.
  assert (Hu : ∀ z, ¬ z < 0 → z < 256 → u8 z = z).
  { intros z ? ?. unfold u8. apply Z.mod_small. lia. }
  rewrite !Hu by done. repeat (split; [done|]). split; [|split].
  - case_decide.
    + rewrite lor_version by lia. unfold le16, GS_VERSION_NUM.
      apply Z.mod_small. lia.
    + by vm_compute.
  - apply substring_length.
  - by rewrite last_snoc.
Qed.

(** X20. Of the attribute byte of the configuration, a [gs_bind] that
    returns 0 changes one bit at most: the wakeup bit (bit 5) is set when
    the gadget is OTG and kept as it was otherwise; no other bit changes,
    so the self-powered bit (bit 6) is never lost.  The OTG descriptors
    are installed for an OTG gadget and else left as they were. *)
Theorem gs_bind_attributes env in_aoa_mode d n :
  (gs_bind env in_aoa_mode d).1 = 0 → 0 ≤ n < 8 →
  Z.testbit (bmAttributes (gs_bind env in_aoa_mode d).2) n
  = (if decide (n = 5) then is_otg env || Z.testbit (bmAttributes d) 5
     else Z.testbit (bmAttributes d) n) ∧
  descriptors_otg (gs_bind env in_aoa_mode d).2
  = is_otg env || descriptors_otg d.
Proof.
  unfold gs_bind, fail.
  repeat (match goal with
          | |- context [decide (?x < 0)] => destruct (decide (x < 0))
          end; simpl); try (intros ?; lia).
  intros _ Hn. destruct (is_otg env), in_aoa_mode; simpl;
    (split; [|done]); try (by case_decide; subst);
    unfold u8, USB_CONFIG_ATT_WAKEUP;
    rewrite Z.mod_pow2_bits_low, Z.lor_spec by lia;
    (case_decide; [subst n; by rewrite orb_true_r|]);
    (replace (Z.testbit (Z.shiftl 1 5) n) with false;
     [by rewrite orb_false_r|]);
    symmetry; rewrite Z.shiftl_spec by lia;
    (destruct (decide (n < 5));
     [apply Z.testbit_neg_r; lia
     |replace (n - 5) with (Z.succ (n - 6)) by lia;
      apply (Z.bits_above_log2 1 (Z.succ (n - 6))); simpl; lia]).
Qed.
End bind_success.

(** * Concrete runs of the further properties *)

Lemma switch_mode_success_witness :
  (switch_mode 0 MODE_ACM aoa_mode_ctl).1 = 0 ∧
  current_mode (switch_mode 0 MODE_ACM aoa_mode_ctl).2 = MODE_ACM ∧
  transport (switch_mode 0 MODE_ACM aoa_mode_ctl).2
  = transport aoa_mode_ctl
    ++ (if decide (current_mode aoa_mode_ctl ≠ MODE_NONE)
        then [usb_composite_unregister; gserial_cleanup] else [])
    ++ [usb_composite_probe gs_bind_acm].
Proof.
  apply (switch_mode_success 0 MODE_ACM aoa_mode_ctl); [by vm_compute|by right].
Defined.

Lemma descriptors_follow_mode_witness :
  descriptors_match (do_mode_ops demo_mode_ops initial_mode_ctl).
Proof.
  apply (descriptors_follow_mode demo_mode_ops initial_mode_ctl);
    [by vm_compute|].
  unfold demo_mode_ops.
  repeat (apply Forall_cons; split; [first [by left|by right|exact I]|]).
  by apply Forall_nil.
Defined.

Lemma open_success_witness :
  (aoa_open 0 demo_state).1 = 0 ∧
  aoa_ctrl_open (aoa_open 0 demo_state).2 = true ∧
  current_mode (modes (aoa_open 0 demo_state).2) = MODE_ACM ∧
  queue (aoa_open 0 demo_state).2 = rewind (queue demo_state) ∧
  aoa_connected_acm (aoa_open 0 demo_state).2 = aoa_connected_acm demo_state.
Proof.
  apply (open_success 0 demo_state); [by vm_compute|by right].
Defined.

Lemma open_failure_rolls_back_witness :
  (aoa_open (-19) demo_state).1 = -19 ∧
  aoa_ctrl_open (aoa_open (-19) demo_state).2 = false ∧
  queue (aoa_open (-19) demo_state).2 = queue demo_state ∧
  current_mode (modes (aoa_open (-19) demo_state).2)
  = current_mode (modes demo_state) ∧
  aoa_connected_acm (aoa_open (-19) demo_state).2
  = aoa_connected_acm demo_state.
Proof.
  apply (open_failure_rolls_back (-19) demo_state); by vm_compute.
Defined.

Lemma after_session_reachable : session_reachable after_session.
Proof.
  apply (session_step (aoa_open 0 initial_state).2 Release).
  - apply (session_step initial_state (Open 0)); [apply session_init|done..].
  - done.
  - done.
Qed.

Lemma closed_means_unconfigured_witness :
  current_mode (modes after_session) = MODE_NONE.
Proof.
  apply (closed_means_unconfigured after_session after_session_reachable).
  by vm_compute.
Defined.

Lemma poll_predicts_read_witness :
  if decide (aoa_poll demo_queue = 0)
  then demo_log = [] ∧
       aoa_read true 0 1 sizeof_aoa_event demo_queue
       = Some (Returned (- EINTR) None demo_queue)
  else aoa_poll demo_queue = Z.lor POLLIN POLLRDNORM ∧
       ∃ e rest q', demo_log = e :: rest ∧
         aoa_read true 0 1 sizeof_aoa_event demo_queue
         = Some (Returned (view_size e.2) (Some (view e.2)) q') ∧
         queue_inv q' demo_log rest.
Proof.
  apply (poll_predicts_read demo_queue demo_log demo_log true 1
           demo_queue_inv).
  by vm_compute.
Defined.


Lemma failed_copy_keeps_event_witness :
  aoa_read false 8 1 sizeof_aoa_event demo_queue
  = Some (Returned (- EFAULT)
            (Some (Partial
                     (view_size (entry_of (PushString 16 junk0
                                   AOA_STRING_MODEL pixel 5)).2 - 8)
                     (view (entry_of (PushString 16 junk0
                              AOA_STRING_MODEL pixel 5)).2)))
            demo_queue) ∧
  ∃ q', aoa_read false 0 1 sizeof_aoa_event demo_queue
        = Some (Returned (view_size (entry_of (PushString 16 junk0
                            AOA_STRING_MODEL pixel 5)).2)
                  (Some (view (entry_of (PushString 16 junk0
                            AOA_STRING_MODEL pixel 5)).2)) q') ∧
        queue_inv q' demo_log
          [entry_of (PushEvent 32 junk0 AOA_EVENT_DISCONNECTED_ACM)].
Proof.
  apply (failed_copy_keeps_event demo_queue demo_log
           (entry_of (PushString 16 junk0 AOA_STRING_MODEL pixel 5))
           [entry_of (PushEvent 32 junk0 AOA_EVENT_DISCONNECTED_ACM)]
           false 8 1 demo_queue_inv); by vm_compute.
Defined.

Lemma failed_allocation_drops_event_witness :
  aoa_event_add NULL junk0 AOA_EVENT_START_REQUESTED demo_queue
  = Some demo_queue ∧
  aoa_str_received_event_add false 48 junk0 AOA_STRING_URI pixel 5 demo_queue
  = Some demo_queue ∧
  aoa_str_received_event_add true NULL junk0 AOA_STRING_URI pixel 5 demo_queue
  = Some demo_queue.
Proof.
  apply (failed_allocation_drops_event demo_queue 48 junk0
           AOA_EVENT_START_REQUESTED AOA_STRING_URI pixel 5); by vm_compute.
Defined.

Lemma dropped_report_is_lost_witness :
  aoa_set_connected_acm NULL junk0 true demo_state
  = Some (mk_state true (aoa_ctrl_open demo_state) (modes demo_state)
            (queue demo_state)) ∧
  ∀ new junk',
    aoa_set_connected_acm new junk' true
      (mk_state true (aoa_ctrl_open demo_state) (modes demo_state)
         (queue demo_state))
    = Some (mk_state true (aoa_ctrl_open demo_state) (modes demo_state)
              (queue demo_state)).
Proof. apply (dropped_report_is_lost junk0 true demo_state). by vm_compute. Defined.

Lemma string_read_back_witness :
  ∃ q1 q2,
    aoa_str_received_event_add true 48 junk0 AOA_STRING_URI split_buf 4
      demo_queue_read = Some q1 ∧
    aoa_read false 0 1 sizeof_aoa_event q1
    = Some (Returned
              (8 + Z.of_nat
                     (length (before_nul
                                (take (Z.to_nat (Z.min 4 255)) split_buf)
                              ++ [x00])))
              (Some (WithString AOA_EVENT_STRING_RECEIVED AOA_STRING_URI
                       (before_nul (take (Z.to_nat (Z.min 4 255)) split_buf)
                        ++ [x00]))) q2) ∧
    next_aoa_event_node q2 = NULL.
Proof.
  apply (string_read_back demo_queue_read demo_log 48 junk0 AOA_STRING_URI
           split_buf 4 false 1 demo_queue_read_inv); by vm_compute.
Defined.

Lemma string_round_trip_witness :
  ∃ q1 q2,
    aoa_str_received_event_add true 48 junk0 AOA_STRING_MODEL pixel
      (Z.of_nat (length pixel)) demo_queue_read = Some q1 ∧
    aoa_read false 0 1 sizeof_aoa_event q1
    = Some (Returned (Z.of_nat (length pixel) + 9)
              (Some (WithString AOA_EVENT_STRING_RECEIVED AOA_STRING_MODEL
                       (pixel ++ [x00]))) q2) ∧
    next_aoa_event_node q2 = NULL.
Proof.
  apply (string_round_trip demo_queue_read demo_log 48 junk0 AOA_STRING_MODEL
           pixel false 1 demo_queue_read_inv); try by vm_compute.
  - repeat constructor; by vm_compute.
  - vm_compute. lia.
Defined.

Lemma example_pushes_granted : pushes_granted example_pushes empty_queue.
Proof.
  do 3 (split; [by vm_compute|]).
  intros q1 Hq1. vm_compute in Hq1. injection Hq1 as <-.
  do 3 (split; [by vm_compute|]).
  intros q2 Hq2. vm_compute in Hq2. injection Hq2 as <-.
  do 3 (split; [by vm_compute|]).
  done.
Qed.

Lemma reads_after_last_connection_witness :
  ∃ q1 q2, do_pushes example_pushes empty_queue = Some q1 ∧
    queue_inv q1
      (entry_of <$> [PushEvent 32 junk0 AOA_EVENT_CONNECTED_ACM;
                     PushEvent 48 junk0 AOA_EVENT_START_REQUESTED])
      (entry_of <$> [PushEvent 32 junk0 AOA_EVENT_CONNECTED_ACM;
                     PushEvent 48 junk0 AOA_EVENT_START_REQUESTED]) ∧
    read_n 2 1 q1
    = Some (view <$> (pushed <$> [PushEvent 32 junk0 AOA_EVENT_CONNECTED_ACM;
                                  PushEvent 48 junk0
                                    AOA_EVENT_START_REQUESTED]), q2) ∧
    next_aoa_event_node q2 = NULL.
Proof.
  apply (reads_after_last_connection empty_queue [] []
           [PushString 16 junk0 AOA_STRING_MODEL pixel 5]
           (PushEvent 32 junk0 AOA_EVENT_CONNECTED_ACM)
           [PushEvent 48 junk0 AOA_EVENT_START_REQUESTED] 1 queue_inv_empty
           example_pushes_granted).
  - done.
  - by repeat constructor.
  - done.
Defined.

Lemma connected_push_frees_all_but_first_witness :
  ∃ q', aoa_event_add 48 junk0 AOA_EVENT_CONNECTED_ACM demo_queue = Some q' ∧
    (∀ p, p ∈ [32] → mem q' !! p = None) ∧
    mem q' !! 16
    = Some (node_of (pushed (PushString 16 junk0 AOA_STRING_MODEL pixel 5))
              16 16) ∧
    16 ≠ 48 ∧
    first_aoa_event_node q' = 48 ∧
    last_aoa_event_node q' = 48 ∧
    next_aoa_event_node q' = 48.
Proof.
  apply (connected_push_frees_all_but_first demo_queue
           (entry_of (PushString 16 junk0 AOA_STRING_MODEL pixel 5))
           [entry_of (PushEvent 32 junk0 AOA_EVENT_DISCONNECTED_ACM)]
           demo_log 48 junk0 demo_queue_inv); by vm_compute.
Defined.

Lemma driver_never_faults_witness :
  ∃ st', step (StrReceived true 16 junk0 AOA_STRING_MODEL pixel 5)
              initial_state = Some st' ∧
         reachable st' ∧
         ∃ es unread, queue_inv (queue st') es unread.
Proof.
  apply (driver_never_faults initial_state
           (StrReceived true 16 junk0 AOA_STRING_MODEL pixel 5)
           reachable_init).
  split; [by right|]. by vm_compute.
Defined.

Lemma gs_bind_success_descriptors_witness :
  Bind.iManufacturer (Bind.gs_bind bind_answers true Bind.initial_data).2 = 1 ∧
  Bind.strings_dev_manufacturer_id
    (Bind.gs_bind bind_answers true Bind.initial_data).2 = 1 ∧
  Bind.iProduct (Bind.gs_bind bind_answers true Bind.initial_data).2 = 2 ∧
  Bind.strings_dev_product_id
    (Bind.gs_bind bind_answers true Bind.initial_data).2 = 2 ∧
  Bind.iConfiguration (Bind.gs_bind bind_answers true Bind.initial_data).2 = 3 ∧
  Bind.strings_dev_description_id
    (Bind.gs_bind bind_answers true Bind.initial_data).2 = 3 ∧
  Bind.bcdDevice (Bind.gs_bind bind_answers true Bind.initial_data).2
  = Bind.GS_VERSION_NUM + (if decide (0 ≤ 0x12) then 0x12 else 0x99) ∧
  (String.length
     (Bind.manufacturer (Bind.gs_bind bind_answers true Bind.initial_data).2)
   ≤ 49)%nat ∧
  last (Bind.calls (Bind.gs_bind bind_answers true Bind.initial_data).2)
  = Some (Bind.usb_add_config Bind.gser_bind_config).
Proof.
  apply (gs_bind_success_descriptors bind_answers true Bind.initial_data);
    by vm_compute.
Defined.

Lemma gs_bind_attributes_witness :
  Z.testbit (Bind.bmAttributes
               (Bind.gs_bind bind_answers false Bind.initial_data).2) 5
  = (if decide (5 = 5)
     then Bind.is_otg bind_answers
          || Z.testbit (Bind.bmAttributes Bind.initial_data) 5
     else Z.testbit (Bind.bmAttributes Bind.initial_data) 5) ∧
  Bind.descriptors_otg (Bind.gs_bind bind_answers false Bind.initial_data).2
  = Bind.is_otg bind_answers || Bind.descriptors_otg Bind.initial_data.
Proof.
  apply (gs_bind_attributes bind_answers false Bind.initial_data 5);
    by vm_compute.
Defined.

(** A failing switch breaks what X2 keeps: after it the descriptors are
    those of the mode that could not be registered, while the mode
    recorded is still the old one. *)
Example failed_switch_descriptors :
  descriptors_match aoa_mode_ctl ∧
  ¬ descriptors_match (switch_mode (-19) MODE_ACM aoa_mode_ctl).2.
Proof. split; [by vm_compute|]. vm_compute. by intros [[=] _]. Qed.

(** [gs_bind] with a controller it does not know and a configuration that
    cannot be added: the error of [usb_add_config] comes back, after the
    cleanup. *)
Example gs_bind_failing_run :
  (Bind.gs_bind bind_answers_failing false Bind.initial_data).1 = -12 ∧
  Bind.bcdDevice (Bind.gs_bind bind_answers_failing false Bind.initial_data).2
  = 0x2499 ∧
  Bind.calls (Bind.gs_bind bind_answers_failing false Bind.initial_data).2
  = [Bind.gserial_setup 1; Bind.usb_string_id; Bind.usb_string_id;
     Bind.usb_string_id; Bind.usb_add_config Bind.acm_bind_config;
     Bind.gserial_cleanup].
Proof. by vm_compute. Qed.
